(** * to_subjects.py: the course grouper and its driver

    A shallow embedding of [src/app/to_subjects.py].  The script trims a
    block of text, cuts it into lines, cuts every line at ['-'] into a
    subject and a course number, groups the numbers under their subject in
    a dict, and dumps the dict as indented JSON into [subject_data.json].

    Python values are modelled as follows.
    - A [str] is a list of Unicode code points.
    - A [dict] is an association list in insertion order, keys unique.
    - A raised exception is the [Raise] case of [result].
    - The driver runs in a state monad over a [world] made of the files
      on disk, the lines printed so far, and what the operating system
      will make of the writes to come. *)

From Stdlib Require Import String Ascii.
From Stdlib Require Import List NArith Lia Bool Arith.
Import ListNotations.
Open Scope list_scope.

Set Implicit Arguments.

(** ** Strings *)

Module Str.

Definition char := N.
Definition str := list char.

Local Open Scope N_scope.

Definition LF : char := 0x0A.
Definition CR : char := 0x0D.
Definition dash : char := 0x2D.

(** [py lit] reads the body of a Python string literal written in ASCII,
    with the escapes [\n], [\t], [\r] and [\\]. *)
Fixpoint py (lit : string) : str :=
  match lit with
  | EmptyString => []
  | String c rest =>
    match c, rest with
    | "\"%char, String "n"%char rest' => 0x0A :: py rest'
    | "\"%char, String "t"%char rest' => 0x09 :: py rest'
    | "\"%char, String "r"%char rest' => 0x0D :: py rest'
    | "\"%char, String "\"%char rest' => 0x5C :: py rest'
    | _, _ => N_of_ascii c :: py rest
    end
  end.
Arguments py lit%_string.

Fixpoint str_eqb (a b : str) : bool :=
  match a, b with
  | [], [] => true
  | x :: a', y :: b' => (x =? y) && str_eqb a' b'
  | _, _ => false
  end.

(** [str.isspace] on one code point (CPython's [_PyUnicode_IsWhitespace]). *)
Definition isspace (c : char) : bool :=
  ((0x09 <=? c) && (c <=? 0x0D)) || ((0x1C <=? c) && (c <=? 0x20))
  || (c =? 0x85) || (c =? 0xA0) || (c =? 0x1680)
  || ((0x2000 <=? c) && (c <=? 0x200A))
  || (c =? 0x2028) || (c =? 0x2029) || (c =? 0x202F) || (c =? 0x205F)
  || (c =? 0x3000).

(** The line boundaries of [str.splitlines] (CPython's
    [_PyUnicode_IsLinebreak]). *)
Definition islinebreak (c : char) : bool :=
  ((0x0A <=? c) && (c <=? 0x0D)) || ((0x1C <=? c) && (c <=? 0x1E))
  || (c =? 0x85) || (c =? 0x2028) || (c =? 0x2029).

(** [s.lstrip()], [s.rstrip()] and [s.strip()] without argument. *)
Fixpoint lstrip (s : str) : str :=
  match s with
  | [] => []
  | c :: rest => if isspace c then lstrip rest else s
  end.

Definition rstrip (s : str) : str := rev (lstrip (rev s)).

Definition strip (s : str) : str := rstrip (lstrip s).

(** [glue c lines] puts [c] in front of the first line. *)
Definition glue (c : char) (lines : list str) : list str :=
  match lines with
  | [] => [[c]]
  | l :: ls => (c :: l) :: ls
  end.

(** [s.splitlines()]: a line ends at a line boundary, ["\r\n"] counts as
    one boundary, the boundaries are dropped, and a boundary at the very
    end opens no further line. *)
Fixpoint splitlines (s : str) : list str :=
  match s with
  | [] => []
  | c :: rest =>
    if islinebreak c then
      match rest with
      | c' :: rest' =>
        if (c =? CR) && (c' =? LF) then [] :: splitlines rest'
        else [] :: splitlines rest
      | [] => [[]]
      end
    else glue c (splitlines rest)
  end.

(** [s.split(sep)] for a one-character separator: every occurrence cuts,
    so the result has one more part than [s] has separators. *)
Fixpoint split (sep : char) (s : str) : list str :=
  match s with
  | [] => [[]]
  | c :: rest => if c =? sep then [] :: split sep rest
                 else glue c (split sep rest)
  end.

End Str.
Export Str.

(** What one more character at the end does to the lines. *)
Inductive snoc_lines (c : char) : list str -> list str -> Prop :=
| snoc_same ls : snoc_lines c ls ls
| snoc_empty_line ls : snoc_lines c (ls ++ [[]]) ls
| snoc_new_line ls : snoc_lines c (ls ++ [[c]]) ls
| snoc_longer init l : snoc_lines c (init ++ [l ++ [c]]) (init ++ [l]).

(** ** Exceptions *)

Inductive exception : Type :=
| ValueError_not_enough_values (expected got : nat)
| ValueError_too_many_values (expected : nat)
| KeyError (key : str)
| OSError.

Inductive result (A : Type) : Type :=
| Ok (a : A)
| Raise (e : exception).
Arguments Ok {A} a.
Arguments Raise {A} e.

Definition bind {A B} (r : result A) (k : A -> result B) : result B :=
  match r with
  | Ok a => k a
  | Raise e => Raise e
  end.

Notation "x <- r ;; k" := (bind r (fun x => k))
  (at level 61, r at next level, right associativity).
Notation "' p <- r ;; k" := (bind r (fun x => let 'p := x in k))
  (at level 61, p pattern, r at next level, right associativity).

(** ** Dicts of lists *)

(** The entries in insertion order. *)
Definition dict := list (str * list str).

Module Dict.

(** [k in d] *)
Fixpoint contains (k : str) (d : dict) : bool :=
  match d with
  | [] => false
  | (k', _) :: d' => str_eqb k k' || contains k d'
  end.

(** [d.get(k)] *)
Fixpoint get (k : str) (d : dict) : option (list str) :=
  match d with
  | [] => None
  | (k', v) :: d' => if str_eqb k k' then Some v else get k d'
  end.

(** [d[k] = v]: an existing key keeps its place, a new one goes last. *)
Fixpoint setitem (k : str) (v : list str) (d : dict) : dict :=
  match d with
  | [] => [(k, v)]
  | (k', v') :: d' =>
    if str_eqb k k' then (k', v) :: d' else (k', v') :: setitem k v d'
  end.

(** [d[k].append(x)]: the list stored under [k] grows in place; the
    subscript raises [KeyError] on a missing key. *)
Fixpoint append (k : str) (x : str) (d : dict) : result dict :=
  match d with
  | [] => Raise (KeyError k)
  | (k', v) :: d' =>
    if str_eqb k k' then Ok ((k', v ++ [x]) :: d')
    else d'' <- append k x d' ;; Ok ((k', v) :: d'')
  end.

Definition keys (d : dict) : list str := map fst d.
Definition values (d : dict) : list (list str) := map snd d.

End Dict.

(** ** The grouper *)

(** [subject, course_num = parts] *)
Definition unpack2 (parts : list str) : result (str * str) :=
  match parts with
  | [a; b] => Ok (a, b)
  | [] | [_] => Raise (ValueError_not_enough_values 2 (length parts))
  | _ => Raise (ValueError_too_many_values 2)
  end.

(** One turn of the [for] loop. *)
Definition loop_body (course_dict : dict) (line : str) : result dict :=
  '(subject, course_num) <- unpack2 (split dash line) ;;
  if Dict.contains subject course_dict
  then Dict.append subject course_num course_dict
  else Ok (Dict.setitem subject [course_num] course_dict).

Fixpoint for_lines (lines : list str) (course_dict : dict) : result dict :=
  match lines with
  | [] => Ok course_dict
  | line :: rest =>
    course_dict' <- loop_body course_dict line ;;
    for_lines rest course_dict'
  end.

Definition process_courses (course_list : str) : result dict :=
  for_lines (splitlines (strip course_list)) [].

(** The loop as a transition system: [Loop rest d] is the head of an
    iteration with [rest] still to read, [Return d] is the function's
    normal exit and [Abort e] an exception leaving the function. *)
Inductive config : Type :=
| Loop (rest : list str) (course_dict : dict)
| Return (course_dict : dict)
| Abort (e : exception).

Inductive step : config -> config -> Prop :=
| step_return d :
    step (Loop [] d) (Return d)
| step_unpack_error line rest d e :
    unpack2 (split dash line) = Raise e ->
    step (Loop (line :: rest) d) (Abort e)
| step_append line rest d subject course_num d' :
    unpack2 (split dash line) = Ok (subject, course_num) ->
    Dict.contains subject d = true ->
    Dict.append subject course_num d = Ok d' ->
    step (Loop (line :: rest) d) (Loop rest d')
| step_append_error line rest d subject course_num e :
    unpack2 (split dash line) = Ok (subject, course_num) ->
    Dict.contains subject d = true ->
    Dict.append subject course_num d = Raise e ->
    step (Loop (line :: rest) d) (Abort e)
| step_create line rest d subject course_num :
    unpack2 (split dash line) = Ok (subject, course_num) ->
    Dict.contains subject d = false ->
    step (Loop (line :: rest) d)
         (Loop rest (Dict.setitem subject [course_num] d)).

(** Any number of steps. *)
Inductive steps : config -> config -> Prop :=
| steps_refl c : steps c c
| steps_step c c' c'' : step c c' -> steps c' c'' -> steps c c''.

Definition initial (course_list : str) : config :=
  Loop (splitlines (strip course_list)) [].

Definition outcome (r : result dict) : config :=
  match r with
  | Ok d => Return d
  | Raise e => Abort e
  end.

(** ** json.dump with [indent=2] *)

Module Json.

Local Open Scope N_scope.

Definition quote : char := 0x22.
Definition backslash : char := 0x5C.

Definition hexdigit (n : N) : char :=
  if n <? 10 then 0x30 + n else 0x61 + (n - 10).

(** ['{0:04x}'.format(n)] for [n < 0x10000]. *)
Definition hex4 (n : N) : str :=
  [hexdigit (n / 4096 mod 16); hexdigit (n / 256 mod 16);
   hexdigit (n / 16 mod 16); hexdigit (n mod 16)].

(** The replacement of one character by [encode_basestring_ascii]:
    [ESCAPE_ASCII] matches the backslash, the quote and whatever lies
    outside [' '..'~']; [ESCAPE_DCT] gives the short escapes. *)
Definition escape_ascii (c : char) : str :=
  if c =? backslash then [backslash; backslash]
  else if c =? quote then [backslash; quote]
  else if (0x20 <=? c) && (c <=? 0x7E) then [c]
  else if c =? 0x08 then backslash :: py "b"
  else if c =? 0x0C then backslash :: py "f"
  else if c =? 0x0A then backslash :: py "n"
  else if c =? 0x0D then backslash :: py "r"
  else if c =? 0x09 then backslash :: py "t"
  else if c <? 0x10000 then backslash :: py "u" ++ hex4 c
  else
    let n := c - 0x10000 in
    let s1 := N.lor 0xD800 (N.land (N.shiftr n 10) 0x3FF) in
    let s2 := N.lor 0xDC00 (N.land n 0x3FF) in
    backslash :: py "u" ++ hex4 s1 ++ backslash :: py "u" ++ hex4 s2.

Definition encode_basestring_ascii (s : str) : str :=
  quote :: flat_map escape_ascii s ++ [quote].

Definition newline_indent (indent level : nat) : str :=
  LF :: repeat 0x20 (indent * level)%nat.

(** The [first]-flag loop of [_iterencode_list] and [_iterencode_dict]:
    the separator goes before every item but the first. *)
Fixpoint separated (sep : str) (first : bool) (items : list str) : str :=
  match items with
  | [] => []
  | x :: xs => (if first then [] else sep) ++ x ++ separated sep false xs
  end.

Definition iterencode_list (indent : nat) (lst : list str) (level : nat) : str :=
  match lst with
  | [] => py "[]"
  | _ =>
    py "[" ++ newline_indent indent (S level)
    ++ separated (py "," ++ newline_indent indent (S level)) true
         (map encode_basestring_ascii lst)
    ++ newline_indent indent level ++ py "]"
  end.

Definition iterencode_item (indent level : nat) (item : str * list str) : str :=
  encode_basestring_ascii (fst item) ++ py ": "
  ++ iterencode_list indent (snd item) level.

Definition iterencode_dict (indent : nat) (dct : dict) (level : nat) : str :=
  match dct with
  | [] => py "{}"
  | _ =>
    py "{" ++ newline_indent indent (S level)
    ++ separated (py "," ++ newline_indent indent (S level)) true
         (map (iterencode_item indent (S level)) dct)
    ++ newline_indent indent level ++ py "}"
  end.

(** The text that [json.dump(obj, fp, indent=indent)] writes to [fp]. *)
Definition dumps (indent : nat) (obj : dict) : str :=
  iterencode_dict indent obj 0.

(** *** json.load

    The decoder of CPython's [json] module ([json/decoder.py],
    [json/scanner.py], with the strict hexadecimal digits of the C
    [scanstring]), for documents made of strings, arrays and objects.  A
    position in the text is modelled by the text that is left to read. *)

#[local] Unset Elimination Schemes.
Inductive value : Type :=
| VStr (s : str)
| VList (items : list value)
| VDict (entries : list (str * value)).
#[local] Set Elimination Schemes.

Inductive parsed (A : Type) : Type :=
| Parsed (a : A) (rest : str)
| JSONDecodeError
| Unmodelled
| Exhausted.
Arguments Parsed {A} a rest.
Arguments JSONDecodeError {A}.
Arguments Unmodelled {A}.
Arguments Exhausted {A}.

(** [WHITESPACE.match]: the characters of [' \t\n\r'] are skipped. *)
Definition is_ws (c : char) : bool :=
  (c =? 0x20) || (c =? 0x09) || (c =? 0x0A) || (c =? 0x0D).

Fixpoint skip_ws (s : str) : str :=
  match s with
  | [] => []
  | c :: rest => if is_ws c then skip_ws rest else s
  end.

Definition hexval (c : char) : option N :=
  if (0x30 <=? c) && (c <=? 0x39) then Some (c - 0x30)
  else if (0x61 <=? c) && (c <=? 0x66) then Some (c - 0x61 + 10)
  else if (0x41 <=? c) && (c <=? 0x46) then Some (c - 0x41 + 10)
  else None.

(** [_decode_uXXXX] on four characters. *)
Definition decode_uXXXX (h1 h2 h3 h4 : char) : option N :=
  match hexval h1, hexval h2, hexval h3, hexval h4 with
  | Some a, Some b, Some c, Some d => Some (a * 4096 + b * 256 + c * 16 + d)
  | _, _, _, _ => None
  end.

Definition is_high_surrogate (c : N) : bool := (0xD800 <=? c) && (c <=? 0xDBFF).
Definition is_low_surrogate (c : N) : bool := (0xDC00 <=? c) && (c <=? 0xDFFF).

Definition join_surrogates (uni uni2 : N) : N :=
  0x10000 + N.lor (N.shiftl (uni - 0xD800) 10) (uni2 - 0xDC00).

(** The [BACKSLASH] table. *)
Definition unescape (esc : char) : option char :=
  if esc =? quote then Some quote
  else if esc =? backslash then Some backslash
  else if esc =? 0x2F then Some 0x2F
  else if esc =? 0x62 then Some 0x08
  else if esc =? 0x66 then Some 0x0C
  else if esc =? 0x6E then Some 0x0A
  else if esc =? 0x72 then Some 0x0D
  else if esc =? 0x74 then Some 0x09
  else None.

Definition chunk (c : char) (r : parsed str) : parsed str :=
  match r with
  | Parsed s rest => Parsed (c :: s) rest
  | _ => r
  end.

(** [scanstring], from the character after the opening quote. *)
Fixpoint scanstring (s : str) : parsed str :=
  match s with
  | [] => JSONDecodeError
  | c :: rest =>
    if c =? quote then Parsed [] rest
    else if c =? backslash then
      match rest with
      | [] => JSONDecodeError
      | esc :: rest1 =>
        if esc =? 0x75 then
          match rest1 with
          | h1 :: h2 :: h3 :: h4 :: rest2 =>
            match decode_uXXXX h1 h2 h3 h4 with
            | None => JSONDecodeError
            | Some uni =>
              match rest2 with
              | b :: u :: rest2' =>
                if is_high_surrogate uni && (b =? backslash) && (u =? 0x75) then
                  match rest2' with
                  | l1 :: l2 :: l3 :: l4 :: rest3 =>
                    match decode_uXXXX l1 l2 l3 l4 with
                    | None => JSONDecodeError
                    | Some uni2 =>
                      if is_low_surrogate uni2
                      then chunk (join_surrogates uni uni2) (scanstring rest3)
                      else chunk uni (scanstring rest2)
                    end
                  | _ => JSONDecodeError
                  end
                else chunk uni (scanstring rest2)
              | _ => chunk uni (scanstring rest2)
              end
            end
          | _ => JSONDecodeError
          end
        else
          match unescape esc with
          | Some c' => chunk c' (scanstring rest1)
          | None => JSONDecodeError
          end
      end
    else if c <=? 0x1F then JSONDecodeError
    else chunk c (scanstring rest)
  end.

(** [dict(pairs)]: a repeated key keeps its first place and its last
    value. *)
Fixpoint put (k : str) (v : value) (d : list (str * value)) : list (str * value) :=
  match d with
  | [] => [(k, v)]
  | (k', v') :: d' =>
    if str_eqb k k' then (k', v) :: d' else (k', v') :: put k v d'
  end.

Definition dict_of_pairs (pairs : list (str * value)) : list (str * value) :=
  fold_left (fun d kv => put (fst kv) (snd kv) d) pairs [].

(** The first characters of the values left out of the model: [null],
    [true], [false], the numbers, [NaN], [Infinity]. *)
Definition starts_other_value (c : char) : bool :=
  (c =? 0x6E) || (c =? 0x74) || (c =? 0x66) || (c =? 0x4E) || (c =? 0x49)
  || (c =? 0x2D) || ((0x30 <=? c) && (c <=? 0x39)).

(** [scan_once], [JSONArray] and [JSONObject] with the bodies of their
    [while True] loops.  The index moves forward at every call; [fuel]
    bounds the number of calls. *)
Fixpoint scan_once (fuel : nat) (s : str) {struct fuel} : parsed value :=
  match fuel with
  | O => Exhausted
  | S fuel' =>
    match s with
    | [] => JSONDecodeError
    | c :: rest =>
      if c =? quote then
        match scanstring rest with
        | Parsed str rest' => Parsed (VStr str) rest'
        | JSONDecodeError => JSONDecodeError
        | Unmodelled => Unmodelled
        | Exhausted => Exhausted
        end
      else if c =? 0x7B then JSONObject fuel' rest
      else if c =? 0x5B then JSONArray fuel' rest
      else if starts_other_value c then Unmodelled
      else JSONDecodeError
    end
  end

with JSONArray (fuel : nat) (s : str) {struct fuel} : parsed value :=
  match fuel with
  | O => Exhausted
  | S fuel' =>
    match skip_ws s with
    | [] => JSONDecodeError
    | c :: rest =>
      if c =? 0x5D then Parsed (VList []) rest
      else array_loop fuel' [] (c :: rest)
    end
  end

with array_loop (fuel : nat) (values : list value) (s : str) {struct fuel}
  : parsed value :=
  match fuel with
  | O => Exhausted
  | S fuel' =>
    match scan_once fuel' s with
    | Parsed v rest =>
      match skip_ws rest with
      | [] => JSONDecodeError
      | c :: rest' =>
        if c =? 0x5D then Parsed (VList (values ++ [v])) rest'
        else if c =? 0x2C then array_loop fuel' (values ++ [v]) (skip_ws rest')
        else JSONDecodeError
      end
    | JSONDecodeError => JSONDecodeError
    | Unmodelled => Unmodelled
    | Exhausted => Exhausted
    end
  end

with JSONObject (fuel : nat) (s : str) {struct fuel} : parsed value :=
  match fuel with
  | O => Exhausted
  | S fuel' =>
    match skip_ws s with
    | [] => JSONDecodeError
    | c :: rest =>
      if c =? 0x7D then Parsed (VDict []) rest
      else if c =? quote then object_loop fuel' [] rest
      else JSONDecodeError
    end
  end

with object_loop (fuel : nat) (pairs : list (str * value)) (s : str)
  {struct fuel} : parsed value :=
  match fuel with
  | O => Exhausted
  | S fuel' =>
    match scanstring s with
    | Parsed key rest =>
      match skip_ws rest with
      | [] => JSONDecodeError
      | c :: rest1 =>
        if c =? 0x3A then
          match scan_once fuel' (skip_ws rest1) with
          | Parsed v rest2 =>
            match skip_ws rest2 with
            | [] => JSONDecodeError
            | c' :: rest3 =>
              if c' =? 0x7D
              then Parsed (VDict (dict_of_pairs (pairs ++ [(key, v)]))) rest3
              else if c' =? 0x2C then
                match skip_ws rest3 with
                | [] => JSONDecodeError
                | q :: rest4 =>
                  if q =? quote
                  then object_loop fuel' (pairs ++ [(key, v)]) rest4
                  else JSONDecodeError
                end
              else JSONDecodeError
            end
          | JSONDecodeError => JSONDecodeError
          | Unmodelled => Unmodelled
          | Exhausted => Exhausted
          end
        else JSONDecodeError
      end
    | JSONDecodeError => JSONDecodeError
    | Unmodelled => Unmodelled
    | Exhausted => Exhausted
    end
  end.

(** [json.loads(s)]: no byte order mark in front, one value, and nothing
    but whitespace after it.  No call chain of the decoder is longer than
    three calls for each character read. *)
Definition loads (s : str) : parsed value :=
  match s with
  | 0xFEFF :: _ => JSONDecodeError
  | _ =>
    match scan_once (3 * length s + 3) (skip_ws s) with
    | Parsed obj rest =>
      match skip_ws rest with
      | [] => Parsed obj []
      | _ :: _ => JSONDecodeError
      end
    | r => r
    end
  end.

(** A call of the decoder on [s] has done its work when it did not stop
    for lack of fuel and, if it read a value, moved forward in [s]. *)
Definition progress {A} (s : str) (r : parsed A) : Prop :=
  match r with
  | Parsed _ rest => (length rest < length s)%nat
  | Exhausted => False
  | JSONDecodeError | Unmodelled => True
  end.

(** A loaded object as a mapping from subjects to lists of course
    numbers, when it is one. *)
Definition as_str (v : value) : option str :=
  match v with
  | VStr s => Some s
  | _ => None
  end.

Fixpoint all_some {A} (l : list (option A)) : option (list A) :=
  match l with
  | [] => Some []
  | Some a :: l' => option_map (cons a) (all_some l')
  | None :: _ => None
  end.

Definition as_list (v : value) : option (list str) :=
  match v with
  | VList items => all_some (map as_str items)
  | _ => None
  end.

Definition as_dict (v : value) : option dict :=
  match v with
  | VDict entries =>
    all_some (map (fun kv => option_map (pair (fst kv)) (as_list (snd kv))) entries)
  | _ => None
  end.

(** A mapping as the object that the decoder builds for it. *)
Definition of_entry (kv : str * list str) : str * value :=
  (fst kv, VList (map VStr (snd kv))).

Definition of_dict (d : dict) : value := VDict (map of_entry d).

(** The mapping read back from a JSON text. *)
Definition load_mapping (text : str) : option dict :=
  match loads text with
  | Parsed obj _ => as_dict obj
  | _ => None
  end.

(** The texts on which dump and load agree: code points in range, and no
    high surrogate right before a low surrogate. *)
Fixpoint well_paired (s : str) : bool :=
  match s with
  | [] => true
  | c :: rest =>
    (c <? 0x110000)
    && match rest with
       | c' :: _ => negb (is_high_surrogate c && is_low_surrogate c')
       | [] => true
       end
    && well_paired rest
  end.

(** What may follow an escaped high surrogate: if it is another [\u]
    escape, then one of a number that is no low surrogate. *)
Definition ahead_ok (text : str) : Prop :=
  forall rest, text = backslash :: 0x75 :: rest ->
    exists m text', rest = hex4 m ++ text' /\ m < 0x10000 /\
                    is_low_surrogate m = false.

(** The four shapes of what the encoder writes for one character. *)
Inductive escaped (c : char) : str -> Prop :=
| escaped_short e :
    e <> 0x75 -> unescape e = Some c -> escaped c [backslash; e]
| escaped_plain :
    c <> quote -> c <> backslash -> 0x1F < c -> escaped c [c]
| escaped_u :
    c < 0x10000 -> escaped c (backslash :: 0x75 :: hex4 c)
| escaped_pair s1 s2 :
    0x10000 <= c ->
    s1 < 0x10000 -> s2 < 0x10000 ->
    is_high_surrogate s1 = true -> is_low_surrogate s2 = true ->
    join_surrogates s1 s2 = c ->
    escaped c (backslash :: 0x75 :: hex4 s1 ++ backslash :: 0x75 :: hex4 s2).

Definition well_paired_dict (d : dict) : bool :=
  forallb (fun kv => well_paired (fst kv) && forallb well_paired (snd kv)) d.

End Json.

(** ** The driver *)

(** What the operating system makes of one [open(path, 'w')] and of the
    writes that follow it: all goes well; or [open] raises and nothing is
    touched; or the file is opened, hence truncated, and a write or the
    close raises when only the first [kept] characters are on disk. *)
Inductive write_result : Type :=
| Written
| OpenFails
| WriteFails (kept : nat).

(** [faults] tells how the writes to come will end, in their order; the
    writes past its end go well. *)
Record world : Type := Build_world {
  files : list (str * str);
  stdout : list str;
  faults : list write_result
}.

(** A world in which every write goes well. *)
Definition World (fs : list (str * str)) (out : list str) : world :=
  Build_world fs out [].

Definition io (A : Type) : Type := world -> result A * world.

Definition io_ret {A} (a : A) : io A := fun w => (Ok a, w).

Definition io_bind {A B} (m : io A) (k : A -> io B) : io B :=
  fun w => match m w with
           | (Ok a, w') => k a w'
           | (Raise e, w') => (Raise e, w')
           end.

Definition io_lift {A} (r : result A) : io A := fun w => (r, w).

Notation "x <~ m ;; k" := (io_bind m (fun x => k))
  (at level 61, m at next level, right associativity).

Fixpoint read_file (path : str) (fs : list (str * str)) : option str :=
  match fs with
  | [] => None
  | (p, text) :: fs' => if str_eqb path p then Some text else read_file path fs'
  end.

(** [with open(path, 'w') as f: f.write(text)]: when all goes well the
    file is created or truncated, then holds [text].  When [open] raises
    [OSError] the files stay as they are; when a write or the close
    raises it, the file is left with the beginning of [text]. *)
Definition write_file (path text : str) : io unit :=
  fun w =>
    let others := filter (fun e => negb (str_eqb path (fst e))) (files w) in
    match faults w with
    | [] =>
      (Ok tt, Build_world ((path, text) :: others) (stdout w) [])
    | Written :: later =>
      (Ok tt, Build_world ((path, text) :: others) (stdout w) later)
    | OpenFails :: later =>
      (Raise OSError, Build_world (files w) (stdout w) later)
    | WriteFails kept :: later =>
      (Raise OSError,
       Build_world ((path, firstn kept text) :: others) (stdout w) later)
    end.


(** [print(line)]: the line goes after what was printed before.  Standard
    output is taken to accept it. *)
Definition print (line : str) : io unit :=
  fun w => (Ok tt, Build_world (files w) (stdout w ++ [line]) (faults w)).

Definition courses : str := py "\n".

Definition output_path : str := py "subject_data.json".

(** The module body, with the text block as a parameter. *)
Definition main (courses : str) : io unit :=
  course_dict <~ io_lift (process_courses courses) ;;
  _ <~ write_file output_path (Json.dumps 2 course_dict) ;;
  print (py "Data successfully written to subject_data.json.").

Definition script : io unit := main courses.

(** ** Vocabulary of the specification *)

(** A line is blank when nothing is left of it after trimming. *)
Definition is_blank (line : str) : bool := forallb isspace line.

Definition nonblank (lines : list str) : list str :=
  filter (fun line => negb (is_blank line)) lines.

Definition nonblank_lines (block : str) : list str :=
  nonblank (splitlines block).

Fixpoint count (c : char) (s : str) : nat :=
  match s with
  | [] => 0
  | x :: s' => (if N.eqb x c then 1 else 0) + count c s'
  end.

(** A block is well formed when each of its non-blank lines has exactly
    one separator. *)
Definition well_formed (block : str) : bool :=
  forallb (fun line => count dash line =? 1) (nonblank_lines block).

(** No blank line is left among the lines of the trimmed block, that is,
    none stands between two non-blank lines of the block. *)
Definition no_blank_inside (block : str) : bool :=
  forallb (fun line => negb (is_blank line)) (splitlines (strip block)).

(** The text before the first [sep], and the text after it. *)
Fixpoint before (sep : char) (s : str) : str :=
  match s with
  | [] => []
  | c :: rest => if N.eqb c sep then [] else c :: before sep rest
  end.

Fixpoint after (sep : char) (s : str) : str :=
  match s with
  | [] => []
  | c :: rest => if N.eqb c sep then rest else after sep rest
  end.

Definition subject_of (line : str) : str := before dash line.
Definition number_of (line : str) : str := after dash line.

(** Cutting at the first separator only, as the specification words it. *)
Definition split_first (line : str) : str * str :=
  (subject_of line, number_of line).

(** The distinct elements in the order in which they first appear. *)
Fixpoint first_seen (l : list str) : list str :=
  match l with
  | [] => []
  | x :: l' => x :: filter (fun y => negb (str_eqb y x)) (first_seen l')
  end.

(** The course numbers of the lines of one subject, in line order. *)
Definition numbers_of (subject : str) (lines : list str) : list str :=
  map number_of (filter (fun line => str_eqb (subject_of line) subject) lines).

(** The number of course numbers held by a mapping. *)
Definition total (d : dict) : nat := list_sum (map (@length str) (Dict.values d)).

Definition nonempty_values (d : dict) : Prop :=
  Forall (fun entry => snd entry <> []) d.

(** Appending [ns] to what a key holds, if it holds anything. *)
Definition extend (held : option (list str)) (ns : list str) : option (list str) :=
  match held, ns with
  | None, [] => None
  | None, _ => Some ns
  | Some vs, _ => Some (vs ++ ns)
  end.

Definition mem (k : str) (ks : list str) : bool := existsb (str_eqb k) ks.

Definition final (c : config) : Prop :=
  match c with
  | Loop _ _ => False
  | Return _ | Abort _ => True
  end.

(** What the loop keeps true of the dict it builds. *)
Definition config_invariant (c : config) : Prop :=
  match c with
  | Loop _ d | Return d => nonempty_values d
  | Abort _ => True
  end.

(** The configuration after one turn on [line]. *)
Definition after_turn (rest : list str) (r : result dict) : config :=
  match r with
  | Ok d => Loop rest d
  | Raise e => Abort e
  end.

(** From [d] to [d'] every key keeps what it held, or holds one element
    more at the end, and a new key holds one element. *)
Definition only_appends (d d' : dict) : Prop :=
  forall k,
    match Dict.get k d with
    | Some vs => Dict.get k d' = Some vs \/ exists x, Dict.get k d' = Some (vs ++ [x])
    | None => Dict.get k d' = None \/ exists x, Dict.get k d' = Some [x]
    end.

(** The exceptions that stand for a malformed line. *)
Definition malformed_line (e : exception) : Prop :=
  match e with
  | ValueError_not_enough_values _ _ | ValueError_too_many_values _ => True
  | KeyError _ | OSError => False
  end.

(** The exception that the unpacking of [line] raises when [line] has
    not exactly one separator. *)
Definition unpack_error (line : str) : exception :=
  if count dash line =? 0 then ValueError_not_enough_values 2 1
  else ValueError_too_many_values 2.

(** A text with Windows line endings: every ["\n"] written ["\r\n"]. *)
Definition to_crlf (s : str) : str :=
  flat_map (fun c => if N.eqb c LF then [CR; LF] else [c]) s.

(** The characters of an ASCII text file: the newline and [' '..'~']. *)
Definition ascii_text (c : char) : bool :=
  N.eqb c LF || (N.leb 0x20 c && N.leb c 0x7E).

(** [d] is what [d'] began as: the keys of [d] come first in [d'], in the
    same order, and each holds in [d'] a list that starts with the list it
    holds in [d]. *)
Definition grows_into (d d' : dict) : Prop :=
  (exists new_keys, Dict.keys d' = Dict.keys d ++ new_keys) /\
  (forall k vs, Dict.get k d = Some vs ->
     exists more, Dict.get k d' = Some (vs ++ more)).

(** * Properties *)

(** ** Strings *)

Lemma str_eqb_eq (a b : str) : str_eqb a b = true <-> a = b.
Proof.
  revert b; induction a as [|x a IH]; intros [|y b]; simpl; split;
    try congruence; try reflexivity.
  - intros H. apply andb_true_iff in H as [Hx Hab].
    apply N.eqb_eq in Hx. apply IH in Hab. congruence.
  - intros H. injection H as -> ->. rewrite N.eqb_refl. simpl.
    now apply IH.
Qed.

Lemma str_eqb_refl (a : str) : str_eqb a a = true.
Proof. now apply str_eqb_eq. Qed.

Lemma str_eqb_neq (a b : str) : str_eqb a b = false <-> a <> b.
Proof.
  split.
  - intros H E. apply str_eqb_eq in E. congruence.
  - intros H. destruct (str_eqb a b) eqn:E; [|reflexivity].
    apply str_eqb_eq in E. contradiction.
Qed.

Lemma str_eqb_sym (a b : str) : str_eqb a b = str_eqb b a.
Proof.
  destruct (str_eqb a b) eqn:E; symmetry.
  - apply str_eqb_eq in E. subst. apply str_eqb_refl.
  - apply str_eqb_neq in E. apply str_eqb_neq. congruence.
Qed.

(** Comparisons of code points, turned into arithmetic. *)
Ltac code_points :=
  unfold islinebreak, isspace, dash, CR, LF in *;
  rewrite ?orb_true_iff, ?andb_true_iff, ?orb_false_iff, ?andb_false_iff,
    ?N.leb_le, ?N.eqb_eq, ?N.ltb_lt, ?N.leb_gt, ?N.eqb_neq, ?N.ltb_ge in *;
  lia.

Lemma islinebreak_isspace (c : char) : islinebreak c = true -> isspace c = true.
Proof. intros H. code_points. Qed.

Lemma dash_not_space (c : char) : isspace c = true -> N.eqb c dash = false.
Proof. intros H. code_points. Qed.

Lemma is_blank_app (a b : str) : is_blank (a ++ b) = is_blank a && is_blank b.
Proof. apply forallb_app. Qed.

Lemma lstrip_blank (s : str) : is_blank s = true -> lstrip s = [].
Proof.
  induction s as [|c s IH]; simpl; [reflexivity|].
  intros H. apply andb_true_iff in H as [Hc Hs]. now rewrite Hc, IH.
Qed.

Lemma lstrip_app_blank (a s : str) : is_blank a = true -> lstrip (a ++ s) = lstrip s.
Proof.
  induction a as [|c a IH]; simpl; [reflexivity|].
  intros H. apply andb_true_iff in H as [Hc Ha]. now rewrite Hc, IH.
Qed.

Lemma lstrip_app_nonblank (s b : str) :
  is_blank s = false -> lstrip (s ++ b) = lstrip s ++ b.
Proof.
  induction s as [|c s IH]; simpl; [discriminate|].
  destruct (isspace c); simpl; [exact IH | reflexivity].
Qed.

Lemma is_blank_rev (s : str) : is_blank (rev s) = is_blank s.
Proof.
  induction s as [|c s IH]; simpl; [reflexivity|].
  rewrite is_blank_app, IH. simpl. rewrite andb_true_r. apply andb_comm.
Qed.

Lemma is_blank_lstrip (s : str) : is_blank (lstrip s) = is_blank s.
Proof.
  induction s as [|c s IH]; simpl; [reflexivity|].
  destruct (isspace c) eqn:Hc; simpl; [exact IH | now rewrite Hc].
Qed.

Lemma rstrip_blank (s : str) : is_blank s = true -> rstrip s = [].
Proof.
  intros H. unfold rstrip. rewrite lstrip_blank; [reflexivity|].
  now rewrite is_blank_rev.
Qed.

Lemma rstrip_app_blank (s b : str) : is_blank b = true -> rstrip (s ++ b) = rstrip s.
Proof.
  intros H. unfold rstrip. rewrite rev_app_distr, lstrip_app_blank; [reflexivity|].
  now rewrite is_blank_rev.
Qed.

Lemma rstrip_snoc_space (s : str) (c : char) :
  isspace c = true -> rstrip (s ++ [c]) = rstrip s.
Proof. intros H. apply rstrip_app_blank. simpl. now rewrite H. Qed.

Lemma rstrip_snoc_other (s : str) (c : char) :
  isspace c = false -> rstrip (s ++ [c]) = s ++ [c].
Proof.
  intros H. unfold rstrip. rewrite rev_app_distr. simpl. rewrite H.
  simpl. now rewrite rev_involutive.
Qed.

Lemma strip_blank (s : str) : is_blank s = true -> strip s = [].
Proof. intros H. unfold strip. now rewrite lstrip_blank. Qed.

(** Whitespace around a block does not survive the trim. *)
Lemma strip_padding (a s b : str) :
  is_blank a = true -> is_blank b = true -> strip (a ++ s ++ b) = strip s.
Proof.
  intros Ha Hb. unfold strip. rewrite lstrip_app_blank by exact Ha.
  destruct (is_blank s) eqn:Hs.
  - rewrite !lstrip_blank; [reflexivity | exact Hs |].
    now rewrite is_blank_app, Hs, Hb.
  - rewrite lstrip_app_nonblank by exact Hs. now apply rstrip_app_blank.
Qed.

(** ** Lines *)

Lemma splitlines_LF (u : str) : splitlines (LF :: u) = [] :: splitlines u.
Proof. destruct u; reflexivity. Qed.

Lemma nonblank_app (a b : list str) : nonblank (a ++ b) = nonblank a ++ nonblank b.
Proof. apply filter_app. Qed.

(** A line boundary in front of a block adds one empty line at most. *)
Lemma nonblank_splitlines_linebreak (c : char) (u : str) :
  islinebreak c = true ->
  nonblank (splitlines (c :: u)) = nonblank (splitlines u).
Proof.
  intros H. simpl. rewrite H. destruct u as [|c' u']; [reflexivity|].
  destruct ((c =? CR)%N && (c' =? LF)%N) eqn:E; [|reflexivity].
  apply andb_true_iff in E as [_ E]. apply N.eqb_eq in E. subst c'.
  now rewrite splitlines_LF.
Qed.

Lemma snoc_lines_cons (c : char) (x : str) (a b : list str) :
  snoc_lines c a b -> snoc_lines c (x :: a) (x :: b).
Proof.
  intros [ls|ls|ls|init l].
  - constructor.
  - apply (snoc_empty_line c (x :: ls)).
  - apply (snoc_new_line c (x :: ls)).
  - apply (snoc_longer c (x :: init) l).
Qed.

Lemma snoc_lines_glue (c x : char) (a b : list str) :
  snoc_lines c a b -> snoc_lines c (glue x a) (glue x b).
Proof.
  intros [ls|ls|ls|init l].
  - constructor.
  - destruct ls as [|l ls]; simpl.
    + constructor.
    + apply (snoc_empty_line c ((x :: l) :: ls)).
  - destruct ls as [|l ls]; simpl.
    + apply (snoc_longer c [] [x]).
    + apply (snoc_new_line c ((x :: l) :: ls)).
  - destruct init as [|l0 init]; simpl.
    + apply (snoc_longer c [] (x :: l)).
    + apply (snoc_longer c ((x :: l0) :: init) l).
Qed.

Lemma splitlines_snoc (t : str) (c : char) :
  snoc_lines c (splitlines (t ++ [c])) (splitlines t).
Proof.
  induction t as [|x t IH].
  - simpl. destruct (islinebreak c).
    + apply (snoc_empty_line c []).
    + apply (snoc_new_line c []).
  - change ((x :: t) ++ [c]) with (x :: t ++ [c]).
    cbn [splitlines]. destruct (islinebreak x) eqn:Hx.
    + destruct t as [|y t]; cbn [app].
      * destruct ((x =? CR)%N && (c =? LF)%N); [constructor|].
        apply snoc_lines_cons. exact IH.
      * destruct ((x =? CR)%N && (y =? LF)%N) eqn:E.
        -- apply andb_true_iff in E as [_ E]. apply N.eqb_eq in E. subst y.
           change ((LF :: t) ++ [c]) with (LF :: t ++ [c]) in IH.
           now rewrite !splitlines_LF in IH.
        -- apply snoc_lines_cons. exact IH.
    + apply snoc_lines_glue. exact IH.
Qed.

(** The trim of a block changes its non-blank lines only by the whitespace
    it cuts from the first and the last of them; [f] is any reading of a
    line that ignores such whitespace. *)
Section Trimmed_lines.

Variable A : Type.
Variable f : str -> A.
Hypothesis f_cons : forall c l, isspace c = true -> f (c :: l) = f l.
Hypothesis f_snoc : forall c l, isspace c = true -> f (l ++ [c]) = f l.

Lemma read_glue (c : char) (ls : list str) :
  isspace c = true -> map f (nonblank (glue c ls)) = map f (nonblank ls).
Proof.
  intros Hc. destruct ls as [|l ls]; unfold nonblank; simpl; rewrite Hc; simpl.
  - reflexivity.
  - destruct (is_blank l); simpl; [reflexivity|]. now rewrite f_cons.
Qed.

Lemma read_cons_space (c : char) (u : str) :
  isspace c = true ->
  map f (nonblank (splitlines (c :: u))) = map f (nonblank (splitlines u)).
Proof.
  intros Hc. destruct (islinebreak c) eqn:Hl.
  - now rewrite nonblank_splitlines_linebreak.
  - simpl. rewrite Hl. now apply read_glue.
Qed.

Lemma read_snoc_space (t : str) (c : char) :
  isspace c = true ->
  map f (nonblank (splitlines (t ++ [c]))) = map f (nonblank (splitlines t)).
Proof.
  intros Hc. destruct (splitlines_snoc t c) as [ls|ls|ls|init l];
    rewrite ?nonblank_app, ?map_app; try reflexivity.
  - now rewrite app_nil_r.
  - unfold nonblank at 2. simpl. rewrite Hc. simpl. now rewrite app_nil_r.
  - f_equal. unfold nonblank. simpl. rewrite is_blank_app. simpl.
    rewrite Hc, andb_true_r.
    destruct (is_blank l); simpl; [reflexivity|]. now rewrite f_snoc.
Qed.

Lemma read_lstrip (s : str) :
  map f (nonblank (splitlines (lstrip s))) = map f (nonblank (splitlines s)).
Proof.
  induction s as [|c s IH]; [reflexivity|]. simpl lstrip.
  destruct (isspace c) eqn:Hc; [|reflexivity].
  now rewrite IH, read_cons_space.
Qed.

Lemma read_rstrip (s : str) :
  map f (nonblank (splitlines (rstrip s))) = map f (nonblank (splitlines s)).
Proof.
  induction s as [|c s IH] using rev_ind; [reflexivity|].
  destruct (isspace c) eqn:Hc.
  - now rewrite rstrip_snoc_space, IH, read_snoc_space.
  - now rewrite rstrip_snoc_other.
Qed.

Lemma read_strip (s : str) :
  map f (nonblank_lines (strip s)) = map f (nonblank_lines s).
Proof. unfold nonblank_lines, strip. now rewrite read_rstrip, read_lstrip. Qed.

End Trimmed_lines.

Lemma count_app (c : char) (a b : str) : count c (a ++ b) = count c a + count c b.
Proof. induction a as [|x a IH]; simpl; [reflexivity|]. rewrite IH. lia. Qed.

Lemma count_blank (l : str) : is_blank l = true -> count dash l = 0.
Proof.
  induction l as [|c l IH]; simpl; [reflexivity|].
  intros H. apply andb_true_iff in H as [Hc Hl].
  now rewrite (dash_not_space _ Hc), IH.
Qed.

(** The number of separators of each non-blank line, before and after the
    trim. *)
Lemma count_dash_strip (s : str) :
  map (count dash) (nonblank_lines (strip s)) = map (count dash) (nonblank_lines s).
Proof.
  apply read_strip.
  - intros c l Hc. simpl. now rewrite (dash_not_space _ Hc).
  - intros c l Hc. rewrite count_app. simpl. rewrite (dash_not_space _ Hc). lia.
Qed.

(** ** Cutting a line *)

Lemma split_no_sep (sep : char) (l : str) : count sep l = 0 -> split sep l = [l].
Proof.
  induction l as [|c l IH]; simpl; [reflexivity|].
  destruct (c =? sep)%N; [discriminate|]. intros H. now rewrite IH.
Qed.

Lemma split_one_sep (sep : char) (l : str) :
  count sep l = 1 -> split sep l = [before sep l; after sep l].
Proof.
  induction l as [|c l IH]; simpl; [discriminate|].
  destruct (c =? sep)%N; simpl; intros H.
  - rewrite split_no_sep; [reflexivity | lia].
  - now rewrite IH.
Qed.

Lemma length_split (sep : char) (l : str) :
  length (split sep l) = S (count sep l).
Proof.
  induction l as [|c l IH]; simpl; [reflexivity|].
  destruct (c =? sep)%N; simpl; [now rewrite IH|].
  destruct (split sep l); simpl in *; [discriminate | exact IH].
Qed.

(** The unpacking succeeds on exactly one separator, and fails one way
    below and another way above. *)
Lemma unpack2_split (l : str) :
  unpack2 (split dash l) =
  match count dash l with
  | 0 => Raise (ValueError_not_enough_values 2 1)
  | 1 => Ok (subject_of l, number_of l)
  | _ => Raise (ValueError_too_many_values 2)
  end.
Proof.
  destruct (count dash l) as [|[|n]] eqn:E.
  - now rewrite split_no_sep.
  - now rewrite split_one_sep.
  - pose proof (length_split dash l) as H. rewrite E in H.
    destruct (split dash l) as [|a [|b [|c r]]]; simpl in H; try discriminate.
    reflexivity.
Qed.

(** ** Dicts *)

Lemma contains_mem (k : str) (d : dict) : Dict.contains k d = mem k (Dict.keys d).
Proof.
  induction d as [|[k' v] d IH]; simpl; [reflexivity|]. now rewrite IH.
Qed.

Lemma mem_app (k : str) (a b : list str) : mem k (a ++ b) = mem k a || mem k b.
Proof. apply existsb_app. Qed.

Lemma mem_In (k : str) (ks : list str) : mem k ks = true <-> In k ks.
Proof.
  unfold mem. rewrite existsb_exists. split.
  - intros (x & Hx & E). apply str_eqb_eq in E. now subst.
  - intros H. exists k. split; [exact H | apply str_eqb_refl].
Qed.

Lemma setitem_new (k : str) (v : list str) (d : dict) :
  Dict.contains k d = false -> Dict.setitem k v d = d ++ [(k, v)].
Proof.
  induction d as [|[k' v'] d IH]; simpl; [reflexivity|].
  intros H. apply orb_false_iff in H as [Hk Hd]. now rewrite Hk, IH.
Qed.

Lemma get_app_new (k' k : str) (v : list str) (d : dict) :
  Dict.get k' (d ++ [(k, v)]) =
  match Dict.get k' d with
  | Some held => Some held
  | None => if str_eqb k' k then Some v else None
  end.
Proof.
  induction d as [|[k0 v0] d IH]; simpl; [reflexivity|].
  destruct (str_eqb k' k0); [reflexivity | exact IH].
Qed.

Lemma get_none (k : str) (d : dict) :
  Dict.contains k d = false -> Dict.get k d = None.
Proof.
  induction d as [|[k' v] d IH]; simpl; [reflexivity|].
  intros H. apply orb_false_iff in H as [Hk Hd]. now rewrite Hk, IH.
Qed.

Lemma total_app (a b : dict) : total (a ++ b) = total a + total b.
Proof. unfold total, Dict.values. now rewrite !map_app, list_sum_app. Qed.

(** The subscript finds the key that [in] has found. *)
Lemma append_contains (k x : str) (d : dict) :
  Dict.contains k d = true -> exists d', Dict.append k x d = Ok d'.
Proof.
  induction d as [|[k' v] d IH]; simpl; [discriminate|].
  destruct (str_eqb k k'); simpl; intros H.
  - eexists; reflexivity.
  - destruct (IH H) as [d' ->]. simpl. eexists; reflexivity.
Qed.

Lemma append_raises (k x : str) (d : dict) (e : exception) :
  Dict.append k x d = Raise e -> Dict.contains k d = false.
Proof.
  intros H. destruct (Dict.contains k d) eqn:E; [|reflexivity].
  destruct (append_contains k x d E) as [d' H']. congruence.
Qed.

(** An append leaves the keys where they are and makes one list one
    element longer. *)
Lemma append_ok (k x : str) (d d' : dict) :
  Dict.append k x d = Ok d' ->
  Dict.keys d' = Dict.keys d /\
  (forall k', Dict.get k' d' =
              extend (Dict.get k' d) (if str_eqb k k' then [x] else [])) /\
  total d' = S (total d) /\
  (nonempty_values d -> nonempty_values d').
Proof.
  revert d'. induction d as [|[k0 v] d IH]; simpl; intros d' H; [discriminate|].
  destruct (str_eqb k k0) eqn:E.
  - injection H as <-. apply str_eqb_eq in E. subst k0.
    split; [reflexivity|]. split; [|split].
    + intros k'. simpl. rewrite (str_eqb_sym k k').
      destruct (str_eqb k' k); simpl; [reflexivity|].
      destruct (Dict.get k' d); simpl; [now rewrite app_nil_r | reflexivity].
    + unfold total. simpl. rewrite length_app. simpl. lia.
    + intros Hne. inversion Hne; subst. constructor; [|assumption].
      simpl. now destruct v.
  - destruct (Dict.append k x d) as [d1|e] eqn:Ha; simpl in H; [|discriminate].
    injection H as <-. destruct (IH d1 eq_refl) as (Hk & Hg & Ht & Hn).
    split; [|split; [|split]].
    + simpl. now rewrite Hk.
    + intros k'. simpl. destruct (str_eqb k' k0) eqn:E'; [|apply Hg].
      apply str_eqb_eq in E'. subst k'. rewrite E. simpl. now rewrite app_nil_r.
    + unfold total in *. simpl. rewrite Ht. lia.
    + intros Hne. inversion Hne; subst. constructor; [assumption | now apply Hn].
Qed.

(** ** One turn of the loop *)

Lemma extend_extend (held : option (list str)) (a b : list str) :
  extend (extend held a) b = extend held (a ++ b).
Proof.
  destruct held as [vs|]; simpl.
  - destruct a; simpl; now rewrite <- app_assoc.
  - destruct a; simpl; [reflexivity|]. now destruct b.
Qed.

Lemma loop_body_eq (d : dict) (line : str) :
  loop_body d line =
  match count dash line with
  | 0 => Raise (ValueError_not_enough_values 2 1)
  | 1 => if Dict.contains (subject_of line) d
         then Dict.append (subject_of line) (number_of line) d
         else Ok (d ++ [(subject_of line, [number_of line])])
  | _ => Raise (ValueError_too_many_values 2)
  end.
Proof.
  unfold loop_body. rewrite unpack2_split.
  destruct (count dash line) as [|[|n]]; simpl; try reflexivity.
  destruct (Dict.contains (subject_of line) d) eqn:E; [reflexivity|].
  now rewrite setitem_new.
Qed.

Lemma loop_body_ok (d : dict) (line : str) (d' : dict) :
  loop_body d line = Ok d' ->
  count dash line = 1 /\
  Dict.keys d' =
    Dict.keys d ++ (if Dict.contains (subject_of line) d then [] else [subject_of line]) /\
  (forall k, Dict.get k d' =
             extend (Dict.get k d)
                    (if str_eqb (subject_of line) k then [number_of line] else [])) /\
  total d' = S (total d) /\
  (nonempty_values d -> nonempty_values d').
Proof.
  rewrite loop_body_eq. destruct (count dash line) as [|[|n]]; try discriminate.
  intros H. split; [reflexivity|].
  destruct (Dict.contains (subject_of line) d) eqn:E.
  - destruct (append_ok _ _ _ H) as (Hk & Hg & Ht & Hn).
    rewrite app_nil_r. auto.
  - injection H as <-. split; [|split; [|split]].
    + unfold Dict.keys. now rewrite map_app.
    + intros k. rewrite get_app_new, (str_eqb_sym k).
      destruct (Dict.get k d) as [vs|] eqn:G; simpl.
      * destruct (str_eqb (subject_of line) k) eqn:Ek; simpl;
          [|now rewrite app_nil_r].
        apply str_eqb_eq in Ek. subst k. rewrite get_none in G; congruence.
      * now destruct (str_eqb (subject_of line) k).
    + rewrite total_app. unfold total. simpl. lia.
    + intros Hne. apply Forall_app. split; [exact Hne|].
      constructor; [discriminate | constructor].
Qed.

Lemma loop_body_total (d : dict) (line : str) :
  count dash line = 1 -> exists d', loop_body d line = Ok d'.
Proof.
  intros H. rewrite loop_body_eq, H.
  destruct (Dict.contains (subject_of line) d) eqn:E.
  - now apply append_contains.
  - eexists; reflexivity.
Qed.

(** The subscript never fails: the turn raises for a malformed line only. *)
Lemma loop_body_raises (d : dict) (line : str) (e : exception) :
  loop_body d line = Raise e -> malformed_line e /\ count dash line <> 1.
Proof.
  rewrite loop_body_eq. destruct (count dash line) as [|[|n]].
  - intros H. injection H as <-. simpl. auto.
  - destruct (Dict.contains (subject_of line) d) eqn:E; [|discriminate].
    intros H. apply append_raises in H. congruence.
  - intros H. injection H as <-. simpl. auto.
Qed.

(** ** The whole loop *)

Lemma numbers_of_cons (k line : str) (lines : list str) :
  numbers_of k (line :: lines) =
  (if str_eqb (subject_of line) k then [number_of line] else [])
  ++ numbers_of k lines.
Proof.
  unfold numbers_of. simpl. now destruct (str_eqb (subject_of line) k).
Qed.

Lemma filter_filter {A} (p q : A -> bool) (l : list A) :
  filter p (filter q l) = filter (fun x => q x && p x) l.
Proof.
  induction l as [|x l IH]; simpl; [reflexivity|].
  destruct (q x); simpl; [|exact IH]. destruct (p x); now rewrite IH.
Qed.

Lemma for_lines_ok (lines : list str) (d d' : dict) :
  for_lines lines d = Ok d' ->
  Forall (fun line => count dash line = 1) lines /\
  Dict.keys d' =
    Dict.keys d
    ++ filter (fun k => negb (mem k (Dict.keys d)))
         (first_seen (map subject_of lines)) /\
  (forall k, Dict.get k d' = extend (Dict.get k d) (numbers_of k lines)) /\
  total d' = total d + length lines /\
  (nonempty_values d -> nonempty_values d').
Proof.
  revert d. induction lines as [|line lines IH]; simpl; intros d H.
  - injection H as <-. split; [constructor|]. split; [now rewrite app_nil_r|].
    split; [|split; [lia | auto]].
    intros k. unfold numbers_of. simpl. now destruct (Dict.get k d); simpl; rewrite ?app_nil_r.
  - destruct (loop_body d line) as [d1|e] eqn:Hb; simpl in H; [|discriminate].
    destruct (loop_body_ok _ _ Hb) as (Hc & Hk & Hg & Ht & Hn).
    destruct (IH _ H) as (Hc' & Hk' & Hg' & Ht' & Hn').
    split; [now constructor|]. split; [|split; [|split]].
    + rewrite Hk', Hk, contains_mem. rewrite <- app_assoc. f_equal.
      destruct (mem (subject_of line) (Dict.keys d)) eqn:Em; simpl.
      * rewrite filter_filter, app_nil_r. apply filter_ext_in. intros k _.
        destruct (str_eqb k (subject_of line)) eqn:Ek; simpl; [|reflexivity].
        apply str_eqb_eq in Ek. subst k. now rewrite Em.
      * f_equal. rewrite filter_filter. apply filter_ext. intros k.
        rewrite mem_app. simpl. rewrite orb_false_r, negb_orb. apply andb_comm.
    + intros k. now rewrite Hg', Hg, extend_extend, numbers_of_cons.
    + lia.
    + auto.
Qed.

Lemma for_lines_total (lines : list str) (d : dict) :
  Forall (fun line => count dash line = 1) lines ->
  exists d', for_lines lines d = Ok d'.
Proof.
  intros H. revert d. induction H as [|line lines Hc _ IH]; intros d; simpl.
  - eexists; reflexivity.
  - destruct (loop_body_total d line Hc) as [d1 ->]. simpl. apply IH.
Qed.

Lemma for_lines_raises (lines : list str) (d : dict) (e : exception) :
  for_lines lines d = Raise e -> malformed_line e.
Proof.
  revert d. induction lines as [|line lines IH]; simpl; intros d H; [discriminate|].
  destruct (loop_body d line) as [d1|e1] eqn:Hb; simpl in H.
  - now apply IH in H.
  - injection H as <-. now apply loop_body_raises in Hb.
Qed.

(** A line without exactly one separator makes the loop fail. *)
Lemma for_lines_malformed (lines : list str) (d : dict) (line : str) :
  In line lines -> count dash line <> 1 ->
  exists e, malformed_line e /\ for_lines lines d = Raise e.
Proof.
  intros Hin Hc. destruct (for_lines lines d) as [d'|e] eqn:H.
  - apply for_lines_ok in H as [Hall _].
    rewrite Forall_forall in Hall. now apply Hall in Hin.
  - exists e. split; [|reflexivity]. now apply for_lines_raises in H.
Qed.

(** ** The raw block and the trimmed block *)

Lemma nonblank_all (lines : list str) :
  forallb (fun line => negb (is_blank line)) lines = true -> nonblank lines = lines.
Proof.
  induction lines as [|l lines IH]; simpl; [reflexivity|].
  intros H. apply andb_true_iff in H as [Hl Hr]. rewrite Hl. now rewrite IH.
Qed.

Lemma nonblank_In (line : str) (lines : list str) :
  In line (nonblank lines) <-> In line lines /\ is_blank line = false.
Proof.
  unfold nonblank. rewrite filter_In, negb_true_iff. reflexivity.
Qed.

Lemma trimmed_lines_well_formed (block : str) :
  well_formed block = true -> no_blank_inside block = true ->
  Forall (fun line => count dash line = 1) (splitlines (strip block)).
Proof.
  unfold well_formed, no_blank_inside. intros Hw Hn.
  rewrite <- (nonblank_all _ Hn). fold (nonblank_lines (strip block)).
  apply Forall_forall. intros line Hin.
  apply (in_map (count dash)) in Hin. rewrite count_dash_strip in Hin.
  apply in_map_iff in Hin as (line' & E & Hin').
  rewrite forallb_forall in Hw. apply Hw in Hin'.
  apply Nat.eqb_eq in Hin'. congruence.
Qed.

Lemma trimmed_lines_length (block : str) :
  no_blank_inside block = true ->
  length (splitlines (strip block)) = length (nonblank_lines block).
Proof.
  intros Hn. rewrite <- (nonblank_all _ Hn). fold (nonblank_lines (strip block)).
  rewrite <- (length_map (count dash)), count_dash_strip. apply length_map.
Qed.

(** A non-blank line of the block is still there after the trim, with the
    separators it had. *)
Lemma raw_line_survives (block line : str) :
  In line (splitlines block) -> is_blank line = false ->
  exists line', In line' (splitlines (strip block)) /\
                count dash line' = count dash line.
Proof.
  intros Hin Hb.
  assert (H : In (count dash line) (map (count dash) (nonblank_lines block))).
  { apply in_map. apply nonblank_In. auto. }
  rewrite <- count_dash_strip in H. apply in_map_iff in H as (line' & E & H).
  apply nonblank_In in H as [H _]. eauto.
Qed.

Lemma process_courses_malformed (block line : str) :
  In line (splitlines block) -> is_blank line = false -> count dash line <> 1 ->
  exists e, malformed_line e /\ process_courses block = Raise e.
Proof.
  intros Hin Hb Hc. destruct (raw_line_survives _ _ Hin Hb) as (line' & Hin' & E).
  apply for_lines_malformed with (line := line'); [exact Hin' | congruence].
Qed.

Lemma process_courses_well_formed (block : str) :
  well_formed block = true -> no_blank_inside block = true ->
  exists m, process_courses block = Ok m.
Proof.
  intros Hw Hn. apply for_lines_total. now apply trimmed_lines_well_formed.
Qed.

(** ** The transition system *)

Lemma step_turn (line : str) (rest : list str) (d : dict) (c : config) :
  step (Loop (line :: rest) d) c <-> c = after_turn rest (loop_body d line).
Proof.
  unfold loop_body. split.
  - intros H. inversion H; subst;
      repeat match goal with
             | E : unpack2 _ = _ |- _ => rewrite E; clear E; cbn [bind]
             | E : Dict.contains _ _ = _ |- _ => rewrite E; clear E
             | E : Dict.append _ _ _ = _ |- _ => rewrite E; clear E
             end; reflexivity.
  - intros ->. destruct (unpack2 (split dash line)) as [[subject num]|e] eqn:Hu; simpl.
    + destruct (Dict.contains subject d) eqn:Hc.
      * destruct (Dict.append subject num d) as [d'|e] eqn:Ha; simpl.
        -- eapply step_append; eassumption.
        -- eapply step_append_error; eassumption.
      * simpl. eapply step_create; eassumption.
    + now apply step_unpack_error.
Qed.

Lemma step_deterministic (c c1 c2 : config) : step c c1 -> step c c2 -> c1 = c2.
Proof.
  destruct c as [[|line rest] d|d|e]; intros H1 H2.
  - inversion H1; inversion H2; congruence.
  - apply step_turn in H1, H2. congruence.
  - inversion H1.
  - inversion H1.
Qed.

Lemma final_stuck (c c' : config) : final c -> ~ step c c'.
Proof. intros Hf Hs. destruct Hs; contradiction. Qed.

(** The function [for_lines] computes the run of the transition system. *)
Lemma steps_for_lines (lines : list str) (d : dict) :
  steps (Loop lines d) (outcome (for_lines lines d)).
Proof.
  revert d. induction lines as [|line lines IH]; intros d; simpl.
  - eapply steps_step; [constructor | constructor].
  - eapply steps_step; [apply step_turn; reflexivity|].
    destruct (loop_body d line) as [d'|e]; simpl; [apply IH | constructor].
Qed.

Lemma steps_final_unique (c f1 f2 : config) :
  steps c f1 -> final f1 -> steps c f2 -> final f2 -> f1 = f2.
Proof.
  intros H1. revert f2. induction H1 as [c|c c' f1 Hs H1 IH]; intros f2 Hf1 H2 Hf2.
  - destruct H2 as [|c c' f2 Hs _]; [reflexivity|].
    destruct (final_stuck Hf1 Hs).
  - destruct H2 as [|c c'' f2 Hs' H2].
    + destruct (final_stuck Hf2 Hs).
    + rewrite <- (step_deterministic Hs Hs') in H2. now apply IH.
Qed.

Lemma run_outcome (course_list : str) (c : config) :
  steps (initial course_list) c -> final c ->
  c = outcome (process_courses course_list).
Proof.
  intros H Hf. apply (steps_final_unique H Hf (steps_for_lines _ _)).
  unfold process_courses. now destruct (for_lines _ _).
Qed.

Lemma step_invariant (c c' : config) :
  step c c' -> config_invariant c -> config_invariant c'.
Proof.
  destruct c as [[|line rest] d|d|e]; intros H Hi; try (inversion H; fail).
  - inversion H; subst. exact Hi.
  - apply step_turn in H. subst c'.
    destruct (loop_body d line) as [d'|e] eqn:Hb; simpl; [|exact I].
    now apply (loop_body_ok _ _ Hb).
Qed.

Lemma steps_invariant (c c' : config) :
  steps c c' -> config_invariant c -> config_invariant c'.
Proof.
  induction 1 as [|c c1 c' Hs _ IH]; [auto|].
  intros Hi. apply IH. now apply (step_invariant Hs).
Qed.

Lemma run_returns (course_list : str) (m : dict) :
  steps (initial course_list) (Return m) <-> process_courses course_list = Ok m.
Proof.
  split.
  - intros H. apply run_outcome in H; [|exact I].
    destruct (process_courses course_list); simpl in H; congruence.
  - intros H. pose proof (steps_for_lines (splitlines (strip course_list)) []) as R.
    fold (process_courses course_list) in R. now rewrite H in R.
Qed.

Lemma step_only_appends (rest rest' : list str) (d d' : dict) :
  step (Loop rest d) (Loop rest' d') -> only_appends d d'.
Proof.
  destruct rest as [|line rest]; intros H; [inversion H|].
  apply step_turn in H. destruct (loop_body d line) as [d1|e] eqn:Hb;
    simpl in H; [|discriminate].
  injection H as _ <-. destruct (loop_body_ok _ _ Hb) as (_ & _ & Hg & _).
  intros k. rewrite Hg. destruct (Dict.get k d) as [vs|]; simpl;
    destruct (str_eqb (subject_of line) k); simpl; eauto.
  left. now rewrite app_nil_r.
Qed.

Lemma numbers_of_subject (subject : str) (lines : list str) :
  In subject (map subject_of lines) -> numbers_of subject lines <> [].
Proof.
  induction lines as [|line lines IH]; simpl; [contradiction|].
  rewrite numbers_of_cons. intros [E|Hin].
  - subst subject. now rewrite str_eqb_refl.
  - destruct (str_eqb (subject_of line) subject); [discriminate|]. now apply IH.
Qed.

Lemma process_courses_ok (block : str) (m : dict) :
  process_courses block = Ok m ->
  Forall (fun line => count dash line = 1) (splitlines (strip block)) /\
  Dict.keys m = first_seen (map subject_of (splitlines (strip block))) /\
  (forall k, Dict.get k m = extend None (numbers_of k (splitlines (strip block)))) /\
  total m = length (splitlines (strip block)) /\
  nonempty_values m.
Proof.
  intros H. destruct (for_lines_ok _ _ H) as (Hc & Hk & Hg & Ht & Hn).
  split; [exact Hc|]. split; [|split; [exact Hg | split; [exact Ht|]]].
  - rewrite Hk. simpl. clear. induction (first_seen _) as [|x l IH]; simpl; congruence.
  - apply Hn. constructor.
Qed.

(** ** JSON: strings *)

Module JsonFacts.
Import Json.

Local Open Scope N_scope.

Ltac json_chars :=
  unfold is_high_surrogate, is_low_surrogate, is_ws, quote, backslash in *;
  rewrite ?orb_true_iff, ?andb_true_iff, ?orb_false_iff, ?andb_false_iff,
    ?negb_true_iff, ?negb_false_iff,
    ?N.leb_le, ?N.eqb_eq, ?N.ltb_lt, ?N.leb_gt, ?N.eqb_neq, ?N.ltb_ge in *;
  lia.

Lemma hexval_hexdigit (d : N) : d < 16 -> hexval (hexdigit d) = Some d.
Proof.
  intros H. unfold hexdigit, hexval. destruct (d <? 10) eqn:E.
  - apply N.ltb_lt in E.
    replace ((0x30 <=? 0x30 + d) && (0x30 + d <=? 0x39))%bool with true
      by (symmetry; json_chars).
    f_equal. lia.
  - apply N.ltb_ge in E.
    replace ((0x30 <=? 0x61 + (d - 10)) && (0x61 + (d - 10) <=? 0x39))%bool with false
      by (symmetry; json_chars).
    replace ((0x61 <=? 0x61 + (d - 10)) && (0x61 + (d - 10) <=? 0x66))%bool with true
      by (symmetry; json_chars).
    f_equal. lia.
Qed.

(** Four digits written by the encoder are read back as the number. *)
Lemma decode_hex4 (n : N) :
  n < 0x10000 ->
  exists h1 h2 h3 h4,
    hex4 n = [h1; h2; h3; h4] /\ decode_uXXXX h1 h2 h3 h4 = Some n.
Proof.
  intros H. unfold hex4. do 4 eexists. split; [reflexivity|].
  unfold decode_uXXXX.
  rewrite !hexval_hexdigit by (apply N.mod_upper_bound; discriminate).
  f_equal.
  pose proof (N.div_mod n 16). pose proof (N.div_mod (n / 16) 16).
  pose proof (N.div_mod (n / 256) 16). pose proof (N.div_mod (n / 4096) 16).
  assert (n / 4096 < 16) by (apply N.Div0.div_lt_upper_bound; lia).
  rewrite (N.mod_small (n / 4096) 16) by assumption.
  replace (n / 256) with (n / 16 / 16) in * by (rewrite N.Div0.div_div; reflexivity).
  replace (n / 4096) with (n / 16 / 16 / 16) in * by (rewrite !N.Div0.div_div; reflexivity).
  lia.
Qed.

Lemma lor_high_low (a b : N) : b < 1024 -> N.lor (a * 1024) b = a * 1024 + b.
Proof.
  intros H. rewrite <- N.lxor_lor, <- N.add_nocarry_lxor; try reflexivity.
  all: rewrite <- (N.mod_small b 1024) by exact H.
  all: change 1024 with (2 ^ 10).
  all: rewrite <- N.land_ones, N.land_assoc, (N.land_comm (a * 2 ^ 10)).
  all: rewrite <- N.land_assoc, (N.land_ones (a * 2 ^ 10)), N.Div0.mod_mul.
  all: apply N.land_0_r.
Qed.

(** The two halves that the encoder writes for a code point above the
    basic plane, and the code point that the decoder joins from them. *)
Lemma surrogate_halves (c : N) :
  0x10000 <= c -> c < 0x110000 ->
  let n := c - 0x10000 in
  let s1 := N.lor 0xD800 (N.land (N.shiftr n 10) 0x3FF) in
  let s2 := N.lor 0xDC00 (N.land n 0x3FF) in
  is_high_surrogate s1 = true /\ is_low_surrogate s2 = true /\
  join_surrogates s1 s2 = c.
Proof.
  intros Hlo Hhi n s1 s2.
  assert (Hn : n < 0x100000) by (unfold n; lia).
  assert (H1 : s1 = 0xD800 + n / 1024).
  { unfold s1. change 0x3FF with (N.ones 10).
    rewrite N.land_ones, N.shiftr_div_pow2. change (2 ^ 10) with 1024.
    rewrite N.mod_small by (apply N.Div0.div_lt_upper_bound; lia).
    change 0xD800 with (54 * 1024). apply lor_high_low.
    apply N.Div0.div_lt_upper_bound. lia. }
  assert (H2 : s2 = 0xDC00 + n mod 1024).
  { unfold s2. change 0x3FF with (N.ones 10).
    rewrite N.land_ones. change (2 ^ 10) with 1024.
    change 0xDC00 with (55 * 1024). apply lor_high_low.
    apply N.mod_upper_bound. discriminate. }
  assert (Hq : n / 1024 < 1024) by (apply N.Div0.div_lt_upper_bound; lia).
  assert (Hr : n mod 1024 < 1024) by (apply N.mod_upper_bound; discriminate).
  pose proof (N.div_mod n 1024) as Hd.
  set (q := n / 1024) in *. set (r := n mod 1024) in *.
  split; [|split].
  - rewrite H1. clearbody q r n. json_chars.
  - rewrite H2. clearbody q r n. json_chars.
  - unfold join_surrogates. rewrite H1, H2.
    replace (0xD800 + q - 0xD800) with q by lia.
    replace (0xDC00 + r - 0xDC00) with r by lia.
    rewrite N.shiftl_mul_pow2. change (2 ^ 10) with 1024.
    rewrite lor_high_low by assumption.
    clearbody q r. unfold n in *. lia.
Qed.

Lemma escape_ascii_escaped (c : char) :
  c < 0x110000 -> escaped c (escape_ascii c).
Proof.
  intros Hc. unfold escape_ascii.
  destruct (c =? backslash) eqn:E1.
  { apply N.eqb_eq in E1. subst c. now apply escaped_short. }
  destruct (c =? quote) eqn:E2.
  { apply N.eqb_eq in E2. subst c. now apply escaped_short. }
  destruct ((0x20 <=? c) && (c <=? 0x7E))%bool eqn:E3.
  { apply escaped_plain; json_chars. }
  destruct (c =? 0x08) eqn:E4.
  { apply N.eqb_eq in E4. subst c. now apply escaped_short. }
  destruct (c =? 0x0C) eqn:E5.
  { apply N.eqb_eq in E5. subst c. now apply escaped_short. }
  destruct (c =? 0x0A) eqn:E6.
  { apply N.eqb_eq in E6. subst c. now apply escaped_short. }
  destruct (c =? 0x0D) eqn:E7.
  { apply N.eqb_eq in E7. subst c. now apply escaped_short. }
  destruct (c =? 0x09) eqn:E8.
  { apply N.eqb_eq in E8. subst c. now apply escaped_short. }
  destruct (c <? 0x10000) eqn:E9.
  { apply N.ltb_lt in E9. now apply escaped_u. }
  apply N.ltb_ge in E9.
  destruct (surrogate_halves E9 Hc) as (Hh & Hl & Hj).
  apply escaped_pair; try assumption; json_chars.
Qed.

Lemma scanstring_u (h1 h2 h3 h4 : char) (rest2 : str) :
  scanstring (backslash :: 0x75 :: h1 :: h2 :: h3 :: h4 :: rest2) =
  match decode_uXXXX h1 h2 h3 h4 with
  | None => JSONDecodeError
  | Some uni =>
    match rest2 with
    | b :: u :: rest2' =>
      if (is_high_surrogate uni && (b =? backslash) && (u =? 0x75))%bool then
        match rest2' with
        | l1 :: l2 :: l3 :: l4 :: rest3 =>
          match decode_uXXXX l1 l2 l3 l4 with
          | None => JSONDecodeError
          | Some uni2 =>
            if is_low_surrogate uni2
            then chunk (join_surrogates uni uni2) (scanstring rest3)
            else chunk uni (scanstring rest2)
          end
        | _ => JSONDecodeError
        end
      else chunk uni (scanstring rest2)
    | _ => chunk uni (scanstring rest2)
    end
  end.
Proof. reflexivity. Qed.

Lemma scanstring_short (esc : char) (rest1 : str) :
  esc <> 0x75 ->
  scanstring (backslash :: esc :: rest1) =
  match unescape esc with
  | Some c' => chunk c' (scanstring rest1)
  | None => JSONDecodeError
  end.
Proof.
  intros H. apply N.eqb_neq in H. cbn [scanstring].
  change (backslash =? quote) with false. change (backslash =? backslash) with true.
  cbv iota. now rewrite H.
Qed.

Lemma scanstring_plain (c : char) (rest : str) :
  c <> quote -> c <> backslash -> 0x1F < c ->
  scanstring (c :: rest) = chunk c (scanstring rest).
Proof.
  intros Hq Hb Hc. apply N.eqb_neq in Hq, Hb. apply N.leb_gt in Hc.
  cbn [scanstring]. now rewrite Hq, Hb, Hc.
Qed.

(** An escaped number that pairs with nothing behind it. *)
Lemma scanstring_u_alone (n : N) (text : str) :
  n < 0x10000 ->
  (is_high_surrogate n = true -> ahead_ok text) ->
  scanstring (backslash :: 0x75 :: hex4 n ++ text) = chunk n (scanstring text).
Proof.
  intros Hn Hahead. destruct (decode_hex4 Hn) as (h1 & h2 & h3 & h4 & Eh & Ed).
  rewrite Eh. cbn [app]. rewrite scanstring_u, Ed.
  destruct text as [|b [|u text']]; try reflexivity.
  destruct (is_high_surrogate n && (b =? backslash) && (u =? 0x75))%bool eqn:E;
    [|reflexivity].
  apply andb_true_iff in E as [E Eu]. apply andb_true_iff in E as [Ehigh Eb].
  apply N.eqb_eq in Eu, Eb. subst b u.
  destruct (Hahead Ehigh text' eq_refl) as (m & text'' & -> & Hm & Hlow).
  destruct (decode_hex4 Hm) as (l1 & l2 & l3 & l4 & El & Edl).
  rewrite El. cbn [app]. now rewrite Edl, Hlow.
Qed.

Lemma scanstring_u_pair (s1 s2 : N) (text : str) :
  s1 < 0x10000 -> s2 < 0x10000 ->
  is_high_surrogate s1 = true -> is_low_surrogate s2 = true ->
  scanstring (backslash :: 0x75 :: hex4 s1 ++ backslash :: 0x75 :: hex4 s2 ++ text)
  = chunk (join_surrogates s1 s2) (scanstring text).
Proof.
  intros H1 H2 Hh Hl.
  destruct (decode_hex4 H1) as (h1 & h2 & h3 & h4 & Eh & Ed).
  destruct (decode_hex4 H2) as (l1 & l2 & l3 & l4 & El & Edl).
  rewrite Eh, El. cbn [app]. rewrite scanstring_u, Ed, Hh.
  change (backslash =? backslash) with true. change (0x75 =? 0x75) with true.
  cbn [andb]. now rewrite Edl, Hl.
Qed.

Lemma scanstring_escaped (c : char) (e text : str) :
  escaped c e ->
  (is_high_surrogate c = true -> ahead_ok text) ->
  scanstring (e ++ text) = chunk c (scanstring text).
Proof.
  intros [e0 He Hu | Hq Hb Hc | Hc | s1 s2 Hc H1 H2 Hh Hl Hj] Hahead.
  - cbn [app]. rewrite scanstring_short by exact He. now rewrite Hu.
  - cbn [app]. now apply scanstring_plain.
  - cbn [app]. now apply scanstring_u_alone.
  - cbn [app]. rewrite <- app_assoc. cbn [app]. rewrite <- Hj.
    now apply scanstring_u_pair.
Qed.

Lemma escaped_ahead (c : char) (e text : str) :
  escaped c e -> is_low_surrogate c = false -> ahead_ok (e ++ text).
Proof.
  intros [e0 He Hu | Hq Hb Hc | Hc | s1 s2 Hc H1 H2 Hh Hl Hj] Hlow rest E;
    cbn [app] in E.
  - injection E as E _. congruence.
  - injection E as E _. congruence.
  - injection E as <-. exists c, text. auto.
  - injection E as <-. exists s1. eexists.
    split; [reflexivity|]. split; [exact H1|]. json_chars.
Qed.

Lemma ahead_quote (text : str) : ahead_ok (quote :: text).
Proof. intros rest E. discriminate E. Qed.

(** What the encoder writes between the quotes is read back as written. *)
Lemma scanstring_encoded (s rest : str) :
  well_paired s = true ->
  scanstring (flat_map escape_ascii s ++ quote :: rest) = Parsed s rest.
Proof.
  induction s as [|c s IH]; [reflexivity|].
  intros H. cbn [well_paired] in H.
  apply andb_true_iff in H as [H Hs]. apply andb_true_iff in H as [Hc Hp].
  apply N.ltb_lt in Hc. cbn [flat_map]. rewrite <- app_assoc.
  rewrite (scanstring_escaped (c := c)).
  - now rewrite IH.
  - now apply escape_ascii_escaped.
  - intros Hh. destruct s as [|c' s]; [apply ahead_quote|].
    cbn [flat_map]. rewrite <- app_assoc. apply escaped_ahead with (c := c').
    + apply escape_ascii_escaped. cbn [well_paired] in Hs.
      apply andb_true_iff in Hs as [Hs _]. apply andb_true_iff in Hs as [Hs _].
      now apply N.ltb_lt.
    + rewrite Hh in Hp. now apply negb_true_iff in Hp.
Qed.

Lemma scan_once_string (fuel : nat) (s rest : str) :
  well_paired s = true -> (0 < fuel)%nat ->
  scan_once fuel (encode_basestring_ascii s ++ rest) = Parsed (VStr s) rest.
Proof.
  intros H Hf. destruct fuel as [|fuel]; [lia|].
  unfold encode_basestring_ascii. cbn [app scan_once].
  change (quote =? quote) with true. cbv iota.
  rewrite <- app_assoc. cbn [app]. now rewrite scanstring_encoded.
Qed.

(** ** JSON: the decoder always has fuel enough *)

Lemma progress_weaken {A} (s s' : str) (r : parsed A) :
  progress s' r -> (length s' <= length s)%nat -> progress s r.
Proof. destruct r; simpl; auto. lia. Qed.

Lemma progress_chunk (c : char) (s s' : str) (r : parsed str) :
  progress s' r -> (length s' <= length s)%nat -> progress s (chunk c r).
Proof. destruct r; simpl; auto. lia. Qed.

Lemma length_skip_ws (s : str) : (length (skip_ws s) <= length s)%nat.
Proof.
  induction s as [|c s IH]; simpl; [lia|]. destruct (is_ws c); simpl; lia.
Qed.

Lemma scanstring_progress (s : str) : progress s (scanstring s).
Proof.
  assert (H : forall n s, (length s <= n)%nat -> progress s (scanstring s)).
  { clear s. induction n as [|n IH]; intros s Hn.
    - destruct s; [exact I | simpl in Hn; lia].
    - destruct s as [|c rest]; [exact I|]. cbn [scanstring].
      repeat match goal with
             | |- progress _ JSONDecodeError => exact I
             | |- progress _ (Parsed _ _) => simpl; lia
             | |- progress _ (chunk _ (scanstring _)) =>
               eapply progress_chunk; [apply IH|]; simpl in *; lia
             | |- progress _ (if ?b then _ else _) => destruct b
             | |- progress _ (match ?x with _ => _ end) => destruct x
             end. }
  apply (H (length s)). lia.
Qed.

Lemma decoder_progress (fuel : nat) :
  (forall s, (3 * length s + 1 <= fuel)%nat -> progress s (scan_once fuel s)) /\
  (forall s, (3 * length s + 3 <= fuel)%nat -> progress s (JSONArray fuel s)) /\
  (forall values s, (3 * length s + 2 <= fuel)%nat ->
                    progress s (array_loop fuel values s)) /\
  (forall s, (3 * length s + 3 <= fuel)%nat -> progress s (JSONObject fuel s)) /\
  (forall pairs s, (3 * length s + 2 <= fuel)%nat ->
                   progress s (object_loop fuel pairs s)).
Proof.
  induction fuel as [|fuel (IHscan & IHarr & IHaloop & IHobj & IHoloop)].
  { repeat split; intros; lia. }
  split; [|split; [|split; [|split]]].
  - intros [|c rest] Hf; [exact I|]. cbn [scan_once length] in *.
    destruct (c =? quote).
    { pose proof (scanstring_progress rest) as H.
      destruct (scanstring rest); simpl in *; trivial; lia. }
    destruct (c =? 0x7B).
    { eapply progress_weaken; [apply IHobj|]; simpl; lia. }
    destruct (c =? 0x5B).
    { eapply progress_weaken; [apply IHarr|]; simpl; lia. }
    destruct (starts_other_value c); exact I.
  - intros s Hf. cbn [JSONArray]. pose proof (length_skip_ws s) as Hs.
    destruct (skip_ws s) as [|c rest]; [exact I|]. simpl in Hs.
    destruct (c =? 0x5D); [simpl; lia|].
    eapply progress_weaken; [apply IHaloop|]; simpl; lia.
  - intros values s Hf. cbn [array_loop].
    assert (H : progress s (scan_once fuel s)) by (apply IHscan; lia).
    destruct (scan_once fuel s) as [v rest| | |]; simpl in H; trivial.
    pose proof (length_skip_ws rest) as Hs.
    destruct (skip_ws rest) as [|c rest']; [exact I|]. simpl in Hs.
    destruct (c =? 0x5D); [simpl; lia|].
    destruct (c =? 0x2C); [|exact I].
    pose proof (length_skip_ws rest').
    eapply progress_weaken; [apply IHaloop|]; lia.
  - intros s Hf. cbn [JSONObject]. pose proof (length_skip_ws s) as Hs.
    destruct (skip_ws s) as [|c rest]; [exact I|]. simpl in Hs.
    destruct (c =? 0x7D); [simpl; lia|].
    destruct (c =? quote); [|exact I].
    eapply progress_weaken; [apply IHoloop|]; lia.
  - intros pairs s Hf. cbn [object_loop].
    pose proof (scanstring_progress s) as H.
    destruct (scanstring s) as [key rest| | |]; simpl in H; trivial.
    pose proof (length_skip_ws rest) as Hs.
    destruct (skip_ws rest) as [|c rest1]; [exact I|]. simpl in Hs.
    destruct (c =? 0x3A); [|exact I].
    pose proof (length_skip_ws rest1) as Hs1.
    assert (H2 : progress (skip_ws rest1) (scan_once fuel (skip_ws rest1)))
      by (apply IHscan; lia).
    destruct (scan_once fuel (skip_ws rest1)) as [v rest2| | |]; simpl in H2; trivial.
    pose proof (length_skip_ws rest2) as Hs2.
    destruct (skip_ws rest2) as [|c' rest3]; [exact I|]. simpl in Hs2.
    destruct (c' =? 0x7D); [simpl; lia|].
    destruct (c' =? 0x2C); [|exact I].
    pose proof (length_skip_ws rest3) as Hs3.
    destruct (skip_ws rest3) as [|q rest4]; [exact I|]. simpl in Hs3.
    destruct (q =? quote); [|exact I].
    eapply progress_weaken; [apply IHoloop|]; lia.
Qed.

(** [loads] never stops for lack of fuel. *)
Lemma loads_has_fuel (s : str) : loads s <> Exhausted.
Proof.
  unfold loads.
  assert (H : progress (skip_ws s) (scan_once (3 * length s + 3) (skip_ws s))).
  { apply decoder_progress. pose proof (length_skip_ws s). lia. }
  destruct s as [|c s']; [discriminate|].
  destruct (scan_once (3 * length (c :: s') + 3) (skip_ws (c :: s'))) as [v rest| | |];
    try contradiction;
    repeat match goal with
           | |- match ?x with _ => _ end <> _ => destruct x
           end; discriminate.
Qed.

(** ** JSON: arrays and objects *)

Lemma skip_ws_indent (indent level : nat) (text : str) :
  skip_ws (newline_indent indent level ++ text) = skip_ws text.
Proof.
  unfold newline_indent. cbn [app skip_ws]. change (is_ws LF) with true. cbv iota.
  induction (indent * level)%nat as [|n IH]; [reflexivity|]. exact IH.
Qed.

Lemma skip_ws_encoded (s text : str) :
  skip_ws (encode_basestring_ascii s ++ text) = encode_basestring_ascii s ++ text.
Proof. reflexivity. Qed.

Lemma separated_cons (sep x : str) (xs : list str) :
  separated sep false (x :: xs) = sep ++ x ++ separated sep false xs.
Proof. reflexivity. Qed.

Lemma array_loop_encoded (indent level : nat) (vs : list str) :
  forall (v : str) (values : list value) (fuel : nat) (tail : str),
    forallb well_paired (v :: vs) = true ->
    (length vs + 1 < fuel)%nat ->
    array_loop fuel values
      (encode_basestring_ascii v
       ++ separated (py "," ++ newline_indent indent (S level)) false
            (map encode_basestring_ascii vs)
       ++ newline_indent indent level ++ py "]" ++ tail)
    = Parsed (VList (values ++ map VStr (v :: vs))) tail.
Proof.
  induction vs as [|v' vs IH]; intros v values fuel tail Hw Hf;
    destruct fuel as [|fuel]; try (cbn [length] in Hf; lia);
    cbn [forallb] in Hw; apply andb_true_iff in Hw as [Hv Hw];
    cbn [array_loop]; rewrite scan_once_string by (assumption || lia).
  - cbn [map separated app]. rewrite skip_ws_indent. reflexivity.
  - cbn [map]. rewrite separated_cons, <- !app_assoc.
    change (py "," ++ ?x) with (0x2C :: x). cbn [skip_ws].
    change (is_ws 0x2C) with false. cbv iota.
    change (0x2C =? 0x5D) with false. change (0x2C =? 0x2C) with true. cbv iota.
    rewrite skip_ws_indent, skip_ws_encoded.
    rewrite IH; [|exact Hw | cbn [length] in Hf; lia].
    now rewrite <- app_assoc.
Qed.

Lemma scan_once_list (indent level : nat) (vs : list str) (fuel : nat) (tail : str) :
  forallb well_paired vs = true ->
  (length vs + 2 < fuel)%nat ->
  scan_once fuel (iterencode_list indent vs level ++ tail)
  = Parsed (VList (map VStr vs)) tail.
Proof.
  intros Hw Hf. destruct vs as [|v vs].
  { destruct fuel as [|[|fuel]]; try (cbn [length] in Hf; lia). reflexivity. }
  destruct fuel as [|fuel]; [lia|].
  unfold iterencode_list. rewrite <- !app_assoc.
  change (py "[" ++ ?x) with (0x5B :: x). cbn [scan_once].
  change (0x5B =? quote) with false. change (0x5B =? 0x7B) with false.
  change (0x5B =? 0x5B) with true. cbv iota.
  destruct fuel as [|fuel]; [cbn [length] in Hf; lia|].
  cbn [JSONArray]. rewrite skip_ws_indent.
  cbn [map separated]. rewrite <- !app_assoc. cbn [app].
  rewrite skip_ws_encoded.
  change (encode_basestring_ascii v ++ ?x)
    with (quote :: (flat_map escape_ascii v ++ [quote]) ++ x) at 1.
  change (quote =? 0x5D) with false. cbv iota.
  change (quote :: (flat_map escape_ascii v ++ [quote]) ++ ?x)
    with (encode_basestring_ascii v ++ x).
  rewrite array_loop_encoded; [reflexivity | exact Hw | cbn [length] in Hf; lia].
Qed.

Lemma total_cons (k : str) (vs : list str) (d : dict) :
  total ((k, vs) :: d) = (length vs + total d)%nat.
Proof. reflexivity. Qed.

Lemma object_loop_encoded (indent level : nat) (entries : dict) :
  forall (k : str) (vs : list str) (pairs : list (str * value)) (fuel : nat)
         (tail : str),
    well_paired_dict ((k, vs) :: entries) = true ->
    (length entries + total ((k, vs) :: entries) + 3 < fuel)%nat ->
    object_loop fuel pairs
      (flat_map escape_ascii k ++ quote :: py ": "
       ++ iterencode_list indent vs (S level)
       ++ separated (py "," ++ newline_indent indent (S level)) false
            (map (iterencode_item indent (S level)) entries)
       ++ newline_indent indent level ++ py "}" ++ tail)
    = Parsed (VDict (dict_of_pairs (pairs ++ map of_entry ((k, vs) :: entries)))) tail.
Proof.
  induction entries as [|[k' vs'] entries IH]; intros k vs pairs fuel tail Hw Hf;
    rewrite total_cons in Hf;
    destruct fuel as [|fuel]; try lia;
    cbn [well_paired_dict forallb fst snd] in Hw;
    apply andb_true_iff in Hw as [Hkv Hw]; apply andb_true_iff in Hkv as [Hk Hvs];
    cbn [object_loop]; rewrite scanstring_encoded by exact Hk;
    change (py ": " ++ ?x) with (0x3A :: 0x20 :: x);
    cbn [skip_ws]; change (is_ws 0x3A) with false;
    cbv iota; change (0x3A =? 0x3A) with true; cbv iota;
    cbn [skip_ws]; change (is_ws 0x20) with true; cbv iota.
  - assert (E : forall x, skip_ws (iterencode_list indent vs (S level) ++ x)
                          = iterencode_list indent vs (S level) ++ x)
      by (intros x; destruct vs; reflexivity).
    rewrite E, scan_once_list by (assumption || (cbn [length] in Hf; lia)).
    cbn [map separated app]. rewrite skip_ws_indent. reflexivity.
  - assert (E : forall x, skip_ws (iterencode_list indent vs (S level) ++ x)
                          = iterencode_list indent vs (S level) ++ x)
      by (intros x; destruct vs; reflexivity).
    rewrite E, scan_once_list by (assumption || (cbn [length] in Hf; lia)).
    cbn [map]. rewrite separated_cons, <- !app_assoc.
    change (py "," ++ ?x) with (0x2C :: x). cbn [skip_ws].
    change (is_ws 0x2C) with false. cbv iota.
    change (0x2C =? 0x7D) with false. change (0x2C =? 0x2C) with true. cbv iota.
    rewrite skip_ws_indent. unfold iterencode_item at 1. cbn [fst snd].
    unfold encode_basestring_ascii at 1. rewrite <- !app_assoc. cbn [app skip_ws].
    change (is_ws quote) with false. cbv iota.
    change (quote =? quote) with true. cbv iota.
    rewrite <- app_assoc. cbn [app]. rewrite IH.
    + now rewrite <- app_assoc.
    + exact Hw.
    + rewrite total_cons in *. cbn [length] in Hf. lia.
Qed.

Lemma scan_once_dict (indent : nat) (m : dict) (fuel : nat) (tail : str) :
  well_paired_dict m = true ->
  (length m + total m + 5 < fuel)%nat ->
  scan_once fuel (dumps indent m ++ tail)
  = Parsed (VDict (dict_of_pairs (map of_entry m))) tail.
Proof.
  intros Hw Hf. destruct m as [|[k vs] m].
  { destruct fuel as [|[|fuel]]; try (cbn [length] in Hf; lia). reflexivity. }
  destruct fuel as [|[|fuel]]; try lia.
  unfold dumps, iterencode_dict. rewrite <- !app_assoc.
  change (py "{" ++ ?x) with (0x7B :: x). cbn [scan_once].
  change (0x7B =? quote) with false. change (0x7B =? 0x7B) with true. cbv iota.
  cbn [JSONObject]. rewrite skip_ws_indent.
  cbn [map separated]. unfold iterencode_item at 1. cbn [fst snd].
  unfold encode_basestring_ascii at 1. rewrite <- !app_assoc. cbn [app skip_ws].
  change (is_ws quote) with false. cbv iota.
  change (quote =? 0x7D) with false. change (quote =? quote) with true. cbv iota.
  rewrite <- app_assoc. cbn [app].
  rewrite object_loop_encoded; [reflexivity | exact Hw |].
  rewrite total_cons in *. cbn [length] in Hf. lia.
Qed.

(** ** JSON: the whole document *)

Lemma list_sum_cons (a : nat) (l : list nat) : list_sum (a :: l) = (a + list_sum l)%nat.
Proof. reflexivity. Qed.

Lemma length_separated (sep : str) (first : bool) (items : list str) :
  (list_sum (map (@length char) items) <= length (separated sep first items))%nat.
Proof.
  revert first. induction items as [|x items IH]; intros first; cbn [separated map]; rewrite ?list_sum_cons.
  - apply Nat.le_refl.
  - rewrite !length_app. specialize (IH false). lia.
Qed.

Lemma length_iterencode_list (indent level : nat) (vs : list str) :
  (length vs <= length (iterencode_list indent vs level))%nat.
Proof.
  destruct vs as [|v vs]; [cbn; lia|].
  unfold iterencode_list. rewrite !length_app.
  pose proof (length_separated (py "," ++ newline_indent indent (S level)) true
                (map encode_basestring_ascii (v :: vs))) as H.
  assert (E : (length (v :: vs)
               <= list_sum (map (@length char) (map encode_basestring_ascii (v :: vs))))%nat).
  { clear. induction (v :: vs) as [|x l IH]; cbn [map length]; rewrite ?list_sum_cons; [cbn; lia|].
    unfold encode_basestring_ascii at 1. cbn [length]. lia. }
  lia.
Qed.

Lemma length_dumps (indent : nat) (m : dict) :
  (length m + total m <= length (dumps indent m) /\ 2 <= length (dumps indent m))%nat.
Proof.
  destruct m as [|kv m]; [cbn; lia|].
  unfold dumps, iterencode_dict. rewrite !length_app.
  pose proof (length_separated (py "," ++ newline_indent indent 1) true
                (map (iterencode_item indent 1) (kv :: m))) as H.
  assert (E : (length (kv :: m) + total (kv :: m)
               <= list_sum (map (@length char) (map (iterencode_item indent 1) (kv :: m))))%nat).
  { clear. induction (kv :: m) as [|[k vs] l IH]; [cbn; lia|].
    rewrite total_cons. cbn [map length]. rewrite list_sum_cons.
    unfold iterencode_item at 1. cbn [fst snd]. rewrite !length_app.
    pose proof (length_iterencode_list indent 1 vs).
    unfold encode_basestring_ascii. cbn [length]. lia. }
  change (length (py "{")) with 1%nat. change (length (py "}")) with 1%nat. lia.
Qed.

Lemma put_new (k : str) (v : value) (d : list (str * value)) :
  ~ In k (map fst d) -> put k v d = d ++ [(k, v)].
Proof.
  induction d as [|[k' v'] d IH]; cbn [put map fst In app]; [reflexivity|].
  intros H. destruct (str_eqb k k') eqn:E.
  - apply str_eqb_eq in E. subst. tauto.
  - rewrite IH; [reflexivity | tauto].
Qed.

(** [dict(pairs)] is [pairs] itself when no key comes twice. *)
Lemma dict_of_pairs_NoDup (pairs : list (str * value)) :
  NoDup (map fst pairs) -> dict_of_pairs pairs = pairs.
Proof.
  unfold dict_of_pairs. change pairs with ([] ++ pairs) at 1 3.
  generalize (@nil (str * value)) as acc.
  induction pairs as [|[k v] pairs IH]; intros acc H; cbn [fold_left fst snd].
  - now rewrite app_nil_r.
  - rewrite put_new.
    + change (acc ++ (k, v) :: pairs) with (acc ++ [(k, v)] ++ pairs) in *.
      rewrite app_assoc in *. now apply IH.
    + rewrite map_app in H. cbn [map fst] in H.
      apply NoDup_remove_2 in H. intros Hin. apply H. apply in_or_app. now left.
Qed.

Lemma as_list_of (vs : list str) : as_list (VList (map VStr vs)) = Some vs.
Proof.
  cbn [as_list]. induction vs as [|v vs IH]; [reflexivity|].
  cbn [map all_some as_str]. now rewrite IH.
Qed.

Lemma as_dict_of (m : dict) : as_dict (of_dict m) = Some m.
Proof.
  unfold of_dict. cbn [as_dict]. induction m as [|[k vs] m IH]; [reflexivity|].
  cbn [map all_some of_entry fst snd]. rewrite as_list_of. cbn [option_map all_some].
  now rewrite IH.
Qed.

(** Loading what [json.dump] wrote gives the mapping back. *)
Lemma load_dumps (indent : nat) (m : dict) :
  NoDup (Dict.keys m) -> well_paired_dict m = true ->
  load_mapping (dumps indent m) = Some m.
Proof.
  intros Hk Hw. unfold load_mapping, loads.
  assert (Hhead : exists text, dumps indent m = 0x7B :: text).
  { destruct m; eexists; reflexivity. }
  destruct Hhead as [text Htext].
  assert (Hscan : scan_once (3 * length (dumps indent m) + 3) (skip_ws (dumps indent m))
                  = Parsed (of_dict m) []).
  { rewrite Htext at 2. cbn [skip_ws]. change (is_ws 0x7B) with false. cbv iota.
    rewrite <- Htext. rewrite <- (app_nil_r (dumps indent m)) at 2.
    rewrite scan_once_dict.
    - unfold of_dict. rewrite dict_of_pairs_NoDup; [reflexivity|].
      rewrite map_map. exact Hk.
    - exact Hw.
    - pose proof (length_dumps indent m). lia. }
  rewrite Htext in *. rewrite Hscan. cbn [skip_ws]. apply as_dict_of.
Qed.

End JsonFacts.

Lemma first_seen_NoDup (l : list str) : NoDup (first_seen l).
Proof.
  induction l as [|x l IH]; cbn [first_seen]; constructor.
  - intros H. apply filter_In in H as [_ H]. now rewrite str_eqb_refl in H.
  - now apply NoDup_filter.
Qed.

Lemma process_courses_keys_NoDup (block : str) (m : dict) :
  process_courses block = Ok m -> NoDup (Dict.keys m).
Proof.
  intros H. apply process_courses_ok in H as (_ & -> & _). apply first_seen_NoDup.
Qed.

(** The file of the block ["CS-101\nCS-102"], character by character. *)
Example dumps_indented :
  Json.dumps 2 [(py "CS", [py "101"; py "102"])]
  = py "{\n  " ++ Json.quote :: py "CS" ++ Json.quote :: py ": [\n    "
    ++ Json.quote :: py "101" ++ Json.quote :: py ",\n    "
    ++ Json.quote :: py "102" ++ Json.quote :: py "\n  ]\n}".
Proof. reflexivity. Qed.

(** X11.  The grouper returns a mapping on exactly the well-formed blocks
    that keep no blank line inside once trimmed; on every other block it
    raises. *)
Lemma process_courses_succeeds_iff (block : str) :
  (exists m, process_courses block = Ok m) <->
  well_formed block = true /\ no_blank_inside block = true.
Proof.
  split.
  - intros [m H]. apply process_courses_ok in H as (Hc & _).
    rewrite Forall_forall in Hc.
    assert (Hn : no_blank_inside block = true).
    { apply forallb_forall. intros line Hin. apply negb_true_iff.
      destruct (is_blank line) eqn:E; [|reflexivity].
      apply count_blank in E. rewrite (Hc _ Hin) in E. discriminate. }
    split; [|exact Hn].
    apply forallb_forall. intros line Hin. apply Nat.eqb_eq.
    apply (in_map (count dash)) in Hin. rewrite <- count_dash_strip in Hin.
    apply in_map_iff in Hin as (line' & <- & Hin).
    apply Hc. now apply nonblank_In in Hin.
  - intros [Hw Hn]. now apply process_courses_well_formed.
Qed.

(** ** The driver *)

(** A run that ends normally has grouped the block, replaced the output
    file by the dump, printed the confirmation line, and used up what the
    operating system held for one write. *)
Lemma main_ok (block : str) (w w' : world) :
  main block w = (Ok tt, w') ->
  exists m,
    process_courses block = Ok m /\
    files w'
    = (output_path, Json.dumps 2 m)
        :: filter (fun e => negb (str_eqb output_path (fst e))) (files w) /\
    stdout w' = stdout w ++ [py "Data successfully written to subject_data.json."] /\
    faults w' = tl (faults w).
Proof.
  unfold main, io_bind, io_lift.
  destruct (process_courses block) as [m|e]; [|discriminate].
  unfold write_file, print.
  destruct (faults w) as [|[| |kept] later]; intros H; try discriminate;
    injection H as <-; exists m; auto.
Qed.

Lemma main_ok_file (block : str) (m : dict) (w w' : world) :
  main block w = (Ok tt, w') ->
  process_courses block = Ok m ->
  read_file output_path (files w') = Some (Json.dumps 2 m).
Proof.
  intros H Hp. apply main_ok in H as (m' & Hp' & Hf & _).
  rewrite Hf. cbn [read_file]. rewrite str_eqb_refl. congruence.
Qed.

(** * The claims *)

(** C1, as the code has it.  Whitespace above the first and below the last
    line of a block, blank lines included, goes with the trim of the whole
    block and changes nothing.  A blank line left inside the trimmed block
    is not skipped: it has no separator and the grouper raises the error of
    a malformed line.  So does the block ["CS-101\n\nMATH-201"]. *)
Theorem blank_lines_trimmed_around_only (block : str) :
  (forall above below,
     is_blank above = true -> is_blank below = true ->
     process_courses (above ++ block ++ below) = process_courses block) /\
  (forall line,
     In line (splitlines (strip block)) -> is_blank line = true ->
     exists e, malformed_line e /\ process_courses block = Raise e) /\
  process_courses (py "CS-101\n\nMATH-201")
  = Raise (ValueError_not_enough_values 2 1).
Proof.
  split; [|split].
  - intros above below Ha Hb. unfold process_courses.
    now rewrite strip_padding.
  - intros line Hin Hb. apply for_lines_malformed with (line := line).
    + exact Hin.
    + rewrite (count_blank _ Hb). discriminate.
  - reflexivity.
Qed.

Lemma blank_lines_trimmed_around_only_witness :
  process_courses (py "\n \n" ++ py "CS-101" ++ py "\n\n") = process_courses (py "CS-101")
  /\ exists e, malformed_line e /\ process_courses (py "CS-101\n  \nCS-102") = Raise e.
Proof.
  split.
  - apply (blank_lines_trimmed_around_only (py "CS-101")); reflexivity.
  - apply (blank_lines_trimmed_around_only (py "CS-101\n  \nCS-102")) with (line := py "  ").
    + simpl. right. left. reflexivity.
    + reflexivity.
Defined.

(** C1 as stated fails: the block ["CS-101\n\nMATH-201"] has an empty
    second line, and the grouper raises on it instead of returning
    [{"CS": ["101"], "MATH": ["201"]}]. *)
Lemma blank_line_inside_not_skipped :
  In [] (splitlines (py "CS-101\n\nMATH-201")) /\
  is_blank [] = true /\
  process_courses (py "CS-101\n\nMATH-201")
  = Raise (ValueError_not_enough_values 2 1) /\
  process_courses (py "CS-101\n\nMATH-201")
  <> Ok [(py "CS", [py "101"]); (py "MATH", [py "201"])].
Proof.
  split; [|split; [|split]].
  - simpl. right. left. reflexivity.
  - reflexivity.
  - reflexivity.
  - discriminate.
Qed.

(** C2, as the code has it.  A line with more than one ['-'] is cut at
    every one of them into more than two parts, the unpacking into two
    names raises [ValueError] (too many values), and the grouper fails on
    every block that has such a line. *)
Theorem several_separators_raise (line : str) :
  2 <= count dash line ->
  3 <= length (split dash line) /\
  (forall d, loop_body d line = Raise (ValueError_too_many_values 2)) /\
  (forall block, In line (splitlines block) ->
     exists e, malformed_line e /\ process_courses block = Raise e).
Proof.
  intros H. split; [|split].
  - rewrite length_split. lia.
  - intros d. rewrite loop_body_eq.
    destruct (count dash line) as [|[|n]]; [lia | lia | reflexivity].
  - intros block Hin. apply process_courses_malformed with (line := line).
    + exact Hin.
    + destruct (is_blank line) eqn:E; [|reflexivity].
      apply count_blank in E. lia.
    + lia.
Qed.

Lemma several_separators_raise_witness :
  3 <= length (split dash (py "MATH-201-A")) /\
  (forall d, loop_body d (py "MATH-201-A") = Raise (ValueError_too_many_values 2)) /\
  (forall block, In (py "MATH-201-A") (splitlines block) ->
     exists e, malformed_line e /\ process_courses block = Raise e).
Proof.
  apply (several_separators_raise (py "MATH-201-A")). simpl. lia.
Defined.

(** C2 as stated fails: the line ["MATH-201-A"] is not read as subject
    ["MATH"] with course number ["201-A"]; the grouper raises. *)
Lemma second_separator_not_kept :
  split_first (py "MATH-201-A") = (py "MATH", py "201-A") /\
  split dash (py "MATH-201-A") = [py "MATH"; py "201"; py "A"] /\
  process_courses (py "MATH-201-A") = Raise (ValueError_too_many_values 2) /\
  process_courses (py "MATH-201-A") <> Ok [(py "MATH", [py "201-A"])].
Proof.
  split; [|split; [|split]]; try reflexivity. discriminate.
Qed.

(** C3.  A block with a non-blank line that has no ['-'] makes the grouper
    raise the error of a malformed line; the driver passes the error on
    and leaves the world as it found it: no file is written and nothing is
    printed. *)
Theorem line_without_separator_aborts (block line : str) (w : world) :
  In line (splitlines block) -> is_blank line = false -> count dash line = 0 ->
  exists e, malformed_line e /\
            process_courses block = Raise e /\
            main block w = (Raise e, w).
Proof.
  intros Hin Hb Hc.
  destruct (@process_courses_malformed block line Hin Hb) as (e & He & Hp).
  - lia.
  - exists e. split; [exact He|]. split; [exact Hp|].
    unfold main, io_bind, io_lift. now rewrite Hp.
Qed.

Lemma line_without_separator_aborts_witness :
  exists e, malformed_line e /\
            process_courses (py "CS101") = Raise e /\
            main (py "CS101") (World [] []) = (Raise e, World [] []).
Proof.
  apply (@line_without_separator_aborts (py "CS101") (py "CS101") (World [] [])).
  - simpl. left. reflexivity.
  - reflexivity.
  - reflexivity.
Defined.

(** C4, as the code has it.  For a well-formed block that leaves no blank
    line inside once trimmed, the grouper returns a mapping, every line it
    reads unpacks into its one pair of subject and course number, and the
    lengths of the value lists add up to the number of non-blank lines of
    the block. *)
Theorem one_pair_per_line (block : str) :
  well_formed block = true -> no_blank_inside block = true ->
  exists m,
    process_courses block = Ok m /\
    Forall (fun line => unpack2 (split dash line) = Ok (subject_of line, number_of line))
           (splitlines (strip block)) /\
    total m = length (nonblank_lines block).
Proof.
  intros Hw Hn. destruct (process_courses_well_formed _ Hw Hn) as [m Hm].
  exists m. split; [exact Hm|].
  destruct (process_courses_ok _ Hm) as (Hc & _ & _ & Ht & _). split.
  - eapply Forall_impl; [|exact Hc]. intros line H. simpl in H.
    now rewrite unpack2_split, H.
  - rewrite Ht. now apply trimmed_lines_length.
Qed.

Lemma one_pair_per_line_witness :
  exists m,
    process_courses (py "\nCS-101\nCS-102 \nMATH-201\n\n") = Ok m /\
    Forall (fun line => unpack2 (split dash line) = Ok (subject_of line, number_of line))
           (splitlines (strip (py "\nCS-101\nCS-102 \nMATH-201\n\n"))) /\
    total m = length (nonblank_lines (py "\nCS-101\nCS-102 \nMATH-201\n\n")).
Proof.
  apply (one_pair_per_line (py "\nCS-101\nCS-102 \nMATH-201\n\n")); reflexivity.
Defined.

(** C4 as stated fails: ["CS-101\n\nMATH-201"] is well formed, its two
    non-blank lines have one separator each, and yet no mapping comes out
    of it. *)
Lemma well_formed_block_without_mapping :
  well_formed (py "CS-101\n\nMATH-201") = true /\
  length (nonblank_lines (py "CS-101\n\nMATH-201")) = 2 /\
  ~ exists m, process_courses (py "CS-101\n\nMATH-201") = Ok m /\
              total m = length (nonblank_lines (py "CS-101\n\nMATH-201")).
Proof.
  split; [reflexivity|]. split; [reflexivity|].
  intros (m & H & _). discriminate H.
Qed.

(** C5, as the code has it.  For a well-formed block that leaves no blank
    line inside once trimmed, the grouper returns a mapping whose keys are
    the subjects of the lines in the order of their first appearance.  The
    block ["CS-101\nCS-102\nMATH-201"] gives
    [{"CS": ["101", "102"], "MATH": ["201"]}], ["CS"] first. *)
Theorem keys_in_order_of_first_appearance :
  (forall block,
     well_formed block = true -> no_blank_inside block = true ->
     exists m,
       process_courses block = Ok m /\
       Dict.keys m = first_seen (map subject_of (splitlines (strip block)))) /\
  process_courses (py "CS-101\nCS-102\nMATH-201")
  = Ok [(py "CS", [py "101"; py "102"]); (py "MATH", [py "201"])].
Proof.
  split; [|reflexivity].
  intros block Hw Hn. destruct (process_courses_well_formed _ Hw Hn) as [m Hm].
  exists m. split; [exact Hm|]. now apply process_courses_ok in Hm.
Qed.

Lemma keys_in_order_of_first_appearance_witness :
  exists m,
    process_courses (py "MATH-201\nCS-101\nMATH-101\nART-7\nCS-102") = Ok m /\
    Dict.keys m = [py "MATH"; py "CS"; py "ART"].
Proof.
  apply (proj1 keys_in_order_of_first_appearance
           (py "MATH-201\nCS-101\nMATH-101\nART-7\nCS-102")); reflexivity.
Defined.

(** C5 as stated fails: ["CS-101\nCS-102\n\nMATH-201"] is well formed
    and has the subjects ["CS"] and ["MATH"], but the grouper returns no
    mapping whose keys could be in any order. *)
Lemma well_formed_block_without_keys :
  well_formed (py "CS-101\nCS-102\n\nMATH-201") = true /\
  ~ exists m, process_courses (py "CS-101\nCS-102\n\nMATH-201") = Ok m /\
              Dict.keys m = [py "CS"; py "MATH"].
Proof.
  split; [reflexivity|]. intros (m & H & _). discriminate H.
Qed.

(** C6, as the code has it.  For a well-formed block that leaves no blank
    line inside once trimmed, the grouper returns a mapping that holds,
    under every subject of the block, the course numbers of that subject's
    lines in line order, repeated ones included.  The block
    ["CS-101\nCS-101"] gives [{"CS": ["101", "101"]}]. *)
Theorem numbers_in_line_order :
  (forall block,
     well_formed block = true -> no_blank_inside block = true ->
     exists m,
       process_courses block = Ok m /\
       forall subject,
         In subject (map subject_of (splitlines (strip block))) ->
         Dict.get subject m = Some (numbers_of subject (splitlines (strip block)))) /\
  process_courses (py "CS-101\nCS-101") = Ok [(py "CS", [py "101"; py "101"])].
Proof.
  split; [|reflexivity].
  intros block Hw Hn. destruct (process_courses_well_formed _ Hw Hn) as [m Hm].
  exists m. split; [exact Hm|]. intros subject Hin.
  destruct (process_courses_ok _ Hm) as (_ & _ & Hg & _). rewrite Hg.
  apply numbers_of_subject in Hin.
  destruct (numbers_of subject (splitlines (strip block))); [contradiction | reflexivity].
Qed.

Lemma numbers_in_line_order_witness :
  exists m,
    process_courses (py "CS-102\nMATH-201\nCS-101\nCS-102") = Ok m /\
    forall subject,
      In subject [py "CS"; py "MATH"; py "CS"; py "CS"] ->
      Dict.get subject m
      = Some (numbers_of subject [py "CS-102"; py "MATH-201"; py "CS-101"; py "CS-102"]).
Proof.
  apply (proj1 numbers_in_line_order (py "CS-102\nMATH-201\nCS-101\nCS-102"));
    reflexivity.
Defined.

(** C6 as stated fails: ["CS-101\n \nCS-101"] is well formed and its
    subject ["CS"] has the numbers ["101"], ["101"], but the grouper
    returns no mapping that could hold them. *)
Lemma well_formed_block_without_numbers :
  well_formed (py "CS-101\n \nCS-101") = true /\
  ~ exists m, process_courses (py "CS-101\n \nCS-101") = Ok m /\
              Dict.get (py "CS") m = Some [py "101"; py "101"].
Proof.
  split; [reflexivity|]. intros (m & H & _). discriminate H.
Qed.

(** C7.  The grouper is deterministic: two runs of the loop on one text
    that both return, return the same mapping, entry for entry and in the
    same order, and it is the mapping that [process_courses] computes. *)
Theorem grouper_deterministic (course_list : str) (m1 m2 : dict) :
  steps (initial course_list) (Return m1) ->
  steps (initial course_list) (Return m2) ->
  m1 = m2 /\
  Dict.keys m1 = Dict.keys m2 /\
  (forall k, Dict.get k m1 = Dict.get k m2) /\
  process_courses course_list = Ok m1.
Proof.
  intros H1 H2.
  assert (E : Return m1 = Return m2).
  { apply (steps_final_unique H1 I H2 I). }
  injection E as <-. split; [reflexivity|]. split; [reflexivity|].
  split; [reflexivity|]. now apply run_returns.
Qed.

Lemma grouper_deterministic_witness :
  [(py "CS", [py "101"; py "102"])] = [(py "CS", [py "101"; py "102"])] /\
  process_courses (py "CS-101\nCS-102") = Ok [(py "CS", [py "101"; py "102"])].
Proof.
  assert (H : steps (initial (py "CS-101\nCS-102"))
                    (Return [(py "CS", [py "101"; py "102"])])).
  { eapply steps_step; [eapply step_create; reflexivity|].
    eapply steps_step; [eapply step_append; reflexivity|].
    eapply steps_step; [apply step_return | apply steps_refl]. }
  destruct (grouper_deterministic H H) as (E & _ & _ & P).
  split; [exact E | exact P].
Defined.

(** C9.  A block of whitespace only, the empty block included, trims to
    nothing and has no line: the grouper returns the empty mapping, and
    the file that the driver has written when the run ends normally holds
    the empty JSON object.  That is what the script does on its own
    constant ["\n"]. *)
Theorem blank_block_empty_mapping :
  (forall block,
     is_blank block = true ->
     strip block = [] /\
     process_courses block = Ok [] /\
     forall w w',
       main block w = (Ok tt, w') ->
       read_file output_path (files w') = Some (py "{}")) /\
  process_courses courses = Ok [] /\
  (forall w w',
     script w = (Ok tt, w') ->
     read_file output_path (files w') = Some (py "{}")).
Proof.
  assert (H : forall block, is_blank block = true ->
                strip block = [] /\ process_courses block = Ok [] /\
                forall w w', main block w = (Ok tt, w') ->
                  read_file output_path (files w') = Some (py "{}")).
  { intros block Hb. pose proof (strip_blank _ Hb) as Hs.
    assert (Hp : process_courses block = Ok []).
    { unfold process_courses. now rewrite Hs. }
    split; [exact Hs|]. split; [exact Hp|].
    intros w w' Hm. exact (@main_ok_file block [] w w' Hm Hp). }
  split; [exact H|]. split; [reflexivity|].
  intros w w' Hs. unfold script in Hs.
  now apply (H courses eq_refl) in Hs.
Qed.

Lemma blank_block_empty_mapping_witness :
  process_courses (py " \t\n\r\n ") = Ok [] /\
  read_file output_path (files (snd (main (py " \t\n\r\n ") (World [] []))))
  = Some (py "{}").
Proof.
  destruct (proj1 blank_block_empty_mapping (py " \t\n\r\n ") eq_refl) as (_ & P & M).
  split; [exact P|].
  apply (M (World [] [])). reflexivity.
Defined.

(** C10.  Every subject key holds a list that is not empty, in every
    configuration the loop reaches and in the mapping it returns; a turn
    of the loop leaves a list as it is or one element longer, and gives a
    new key a list of one element. *)
Theorem values_never_empty (course_list : str) :
  (forall c, steps (initial course_list) c -> config_invariant c) /\
  (forall m, process_courses course_list = Ok m -> nonempty_values m) /\
  (forall rest d rest' d',
     steps (initial course_list) (Loop rest d) ->
     step (Loop rest d) (Loop rest' d') ->
     only_appends d d').
Proof.
  split; [|split].
  - intros c H. apply (steps_invariant H). constructor.
  - intros m H. now apply process_courses_ok in H.
  - intros rest d rest' d' _ H. exact (step_only_appends H).
Qed.

Lemma values_never_empty_witness :
  nonempty_values [(py "CS", [py "101"; py "102"]); (py "MATH", [py "201"])].
Proof.
  apply (proj1 (proj2 (values_never_empty (py "CS-101\nCS-102\nMATH-201")))).
  reflexivity.
Defined.

(** C8, as the code has it.  For every mapping that the grouper returns
    and in which every key and course number is made of code points up to
    U+10FFFF with no high surrogate (U+D800 to U+DBFF) right before a
    low surrogate (U+DC00 to U+DFFF), loading the text of [json.dump] with
    [indent=2] gives the same mapping back: the same keys in the same
    order with the same lists; and that text is what [subject_data.json]
    holds when the run of the driver has ended normally. *)
Theorem json_round_trip (block : str) (m : dict) :
  process_courses block = Ok m ->
  Json.well_paired_dict m = true ->
  Json.load_mapping (Json.dumps 2 m) = Some m /\
  forall w w',
    main block w = (Ok tt, w') ->
    exists text,
      read_file output_path (files w') = Some text /\
      Json.load_mapping text = Some m.
Proof.
  intros Hp Hw.
  assert (Hl : Json.load_mapping (Json.dumps 2 m) = Some m).
  { apply JsonFacts.load_dumps; [|exact Hw].
    now apply process_courses_keys_NoDup with (block := block). }
  split; [exact Hl|].
  intros w w' Hm. exists (Json.dumps 2 m).
  split; [exact (@main_ok_file block m w w' Hm Hp) | exact Hl].
Qed.

Lemma json_round_trip_witness :
  Json.load_mapping
    (Json.dumps 2 [(py "CS", [py "101"; py "102"]); (py "MATH", [py "201"])])
  = Some [(py "CS", [py "101"; py "102"]); (py "MATH", [py "201"])].
Proof.
  apply (@json_round_trip (py "CS-101\nCS-102\nMATH-201")
           [(py "CS", [py "101"; py "102"]); (py "MATH", [py "201"])]);
    reflexivity.
Defined.

(** C8 as stated fails: the text made of U+D83D, U+DE00, ['-'], ['1'] is
    grouped under the two-character key U+D83D U+DE00; [json.dump] writes
    that key as the two escapes [\ud83d] and [\ude00], and loading the file gives the
    one-character key U+1F600 instead. *)
Lemma surrogate_pair_not_restored :
  process_courses [0xD83D; 0xDE00; 0x2D; 0x31]%N
  = Ok [([0xD83D; 0xDE00]%N, [py "1"])] /\
  Json.load_mapping (Json.dumps 2 [([0xD83D; 0xDE00]%N, [py "1"])])
  = Some [([0x1F600]%N, [py "1"])] /\
  Json.load_mapping (Json.dumps 2 [([0xD83D; 0xDE00]%N, [py "1"])])
  <> Some [([0xD83D; 0xDE00]%N, [py "1"])].
Proof.
  split; [reflexivity|]. split; [vm_compute; reflexivity|].
  vm_compute. discriminate.
Qed.

(** * Further properties of the grouper *)

Lemma for_lines_first_error (good : list str) (bad : str) (rest : list str) (d : dict) :
  Forall (fun line => count dash line = 1) good ->
  count dash bad <> 1 ->
  for_lines (good ++ bad :: rest) d = Raise (unpack_error bad).
Proof.
  intros Hg Hb. revert d. induction Hg as [|line good Hc _ IH]; intros d; simpl.
  - rewrite loop_body_eq. unfold unpack_error.
    destruct (count dash bad) as [|[|n]]; [reflexivity | congruence | reflexivity].
  - destruct (loop_body_total d line Hc) as [d1 ->]. simpl. apply IH.
Qed.

Lemma for_lines_raise_split (lines : list str) (d : dict) (e : exception) :
  for_lines lines d = Raise e ->
  exists good bad rest,
    lines = good ++ bad :: rest /\
    Forall (fun line => count dash line = 1) good /\
    count dash bad <> 1 /\
    e = unpack_error bad.
Proof.
  revert d. induction lines as [|line lines IH]; simpl; intros d H; [discriminate|].
  destruct (loop_body d line) as [d1|e1] eqn:Hb; simpl in H.
  - destruct (IH _ H) as (good & bad & rest & -> & Hg & Hc & ->).
    exists (line :: good), bad, rest. split; [reflexivity|].
    split; [|auto]. constructor; [|exact Hg]. now apply loop_body_ok in Hb.
  - injection H as <-. exists [], line, lines. split; [reflexivity|].
    split; [constructor|]. destruct (loop_body_raises _ _ Hb) as [_ Hc].
    split; [exact Hc|]. rewrite loop_body_eq in Hb. unfold unpack_error.
    destruct (count dash line) as [|[|n]]; simpl; congruence.
Qed.

(** X1.  Whatever the grouper raises is the [ValueError] of the unpacking
    of the first line it reads that has not exactly one ['-']; the
    subscript [course_dict[subject]] is guarded by [in] and never raises
    [KeyError]. *)
Theorem raises_for_first_malformed_line (block : str) (e : exception) :
  process_courses block = Raise e ->
  malformed_line e /\
  exists good bad rest,
    splitlines (strip block) = good ++ bad :: rest /\
    Forall (fun line => count dash line = 1) good /\
    count dash bad <> 1 /\
    e = unpack_error bad.
Proof.
  intros H. split.
  - now apply for_lines_raises in H.
  - now apply for_lines_raise_split in H.
Qed.

Lemma raises_for_first_malformed_line_witness :
  malformed_line (ValueError_too_many_values 2) /\
  exists good bad rest,
    splitlines (strip (py "CS-101\nA-B-C\nCS102")) = good ++ bad :: rest /\
    Forall (fun line => count dash line = 1) good /\
    count dash bad <> 1 /\
    ValueError_too_many_values 2 = unpack_error bad.
Proof.
  apply (@raises_for_first_malformed_line (py "CS-101\nA-B-C\nCS102")). reflexivity.
Defined.

(** X2.  The loop stops at the first malformed line: when the lines
    before it have one ['-'] each, the grouper raises that line's error,
    whatever the lines after it are. *)
Theorem first_malformed_line_decides (block : str) (good : list str) (bad : str)
    (rest : list str) :
  splitlines (strip block) = good ++ bad :: rest ->
  Forall (fun line => count dash line = 1) good ->
  count dash bad <> 1 ->
  process_courses block = Raise (unpack_error bad).
Proof.
  intros E Hg Hb. unfold process_courses. rewrite E.
  now apply for_lines_first_error.
Qed.

Lemma first_malformed_line_decides_witness :
  process_courses (py "CS-101\nCS102\nA-B-C")
  = Raise (ValueError_not_enough_values 2 1).
Proof.
  apply (@first_malformed_line_decides (py "CS-101\nCS102\nA-B-C")
           [py "CS-101"] (py "CS102") [py "A-B-C"]).
  - reflexivity.
  - constructor; [reflexivity | constructor].
  - simpl. discriminate.
Defined.

Lemma cut_line (line : str) :
  count dash line = 1 ->
  line = subject_of line ++ dash :: number_of line /\
  count dash (subject_of line) = 0 /\ count dash (number_of line) = 0.
Proof.
  unfold subject_of, number_of.
  induction line as [|c line IH]; simpl; [discriminate|].
  destruct (c =? dash)%N eqn:E; simpl.
  - apply N.eqb_eq in E. subst c. intros H. repeat split. lia.
  - rewrite E. simpl. intros H. destruct (IH H) as (E1 & E2 & E3).
    repeat split; [now rewrite <- E1 | exact E2 | exact E3].
Qed.

Lemma get_In (k : str) (vs : list str) (d : dict) :
  NoDup (Dict.keys d) -> In (k, vs) d -> Dict.get k d = Some vs.
Proof.
  induction d as [|[k' v'] d IH]; simpl; [contradiction|].
  intros Hn [E|Hin].
  - injection E as -> ->. now rewrite str_eqb_refl.
  - inversion Hn as [|? ? Hnotin Hn']; subst.
    destruct (str_eqb k k') eqn:E; [|now apply IH].
    apply str_eqb_eq in E. subst k'. exfalso. apply Hnotin.
    change k with (fst (k, vs)). now apply in_map.
Qed.

Lemma get_Some_In (k : str) (vs : list str) (d : dict) :
  Dict.get k d = Some vs -> In (k, vs) d.
Proof.
  induction d as [|[k' v'] d IH]; simpl; [discriminate|].
  destruct (str_eqb k k') eqn:E.
  - apply str_eqb_eq in E. subst k'. intros H. injection H as ->. now left.
  - intros H. right. now apply IH.
Qed.

Lemma In_numbers_of (k v : str) (lines : list str) :
  In v (numbers_of k lines) <->
  exists line, In line lines /\ subject_of line = k /\ number_of line = v.
Proof.
  unfold numbers_of. rewrite in_map_iff. split.
  - intros (line & E & Hin). apply filter_In in Hin as [Hin Hk].
    apply str_eqb_eq in Hk. eauto.
  - intros (line & Hin & Hk & E). exists line. split; [exact E|].
    apply filter_In. split; [exact Hin|]. now apply str_eqb_eq.
Qed.

(** X3.  Nothing is stored that was not read: every course number held
    under a key is the text after the ['-'] of a line of the trimmed block
    whose text before the ['-'] is that key, and neither of the two
    contains a ['-']. *)
Theorem entries_come_from_lines (block : str) (m : dict) (k v : str)
    (vs : list str) :
  process_courses block = Ok m ->
  In (k, vs) m -> In v vs ->
  In (k ++ dash :: v) (splitlines (strip block)) /\
  count dash k = 0 /\ count dash v = 0.
Proof.
  intros Hp Hin Hv.
  pose proof (process_courses_keys_NoDup _ Hp) as Hn.
  destruct (process_courses_ok _ Hp) as (Hc & _ & Hg & _).
  apply (get_In _ _ _ Hn) in Hin. rewrite Hg in Hin.
  assert (E : vs = numbers_of k (splitlines (strip block))).
  { destruct (numbers_of k (splitlines (strip block))); simpl in Hin; congruence. }
  subst vs. apply In_numbers_of in Hv as (line & Hl & <- & <-).
  rewrite Forall_forall in Hc. destruct (cut_line _ (Hc _ Hl)) as (E & E1 & E2).
  rewrite <- E. auto.
Qed.

Lemma entries_come_from_lines_witness :
  In (py "CS" ++ dash :: py "102") (splitlines (strip (py "\nCS-101\nMATH-201\nCS-102\n"))) /\
  count dash (py "CS") = 0 /\ count dash (py "102") = 0.
Proof.
  apply (@entries_come_from_lines (py "\nCS-101\nMATH-201\nCS-102\n")
           [(py "CS", [py "101"; py "102"]); (py "MATH", [py "201"])]
           (py "CS") (py "102") [py "101"; py "102"]).
  - reflexivity.
  - simpl. left. reflexivity.
  - simpl. right. left. reflexivity.
Defined.

(** X4.  Nothing that was read is lost: when the grouper returns, every
    line of the trimmed block is its subject, a ['-'] and its course
    number, and the mapping holds that number in the list of that
    subject. *)
Theorem lines_go_into_entries (block : str) (m : dict) (line : str) :
  process_courses block = Ok m ->
  In line (splitlines (strip block)) ->
  line = subject_of line ++ dash :: number_of line /\
  exists vs, In (subject_of line, vs) m /\ In (number_of line) vs.
Proof.
  intros Hp Hl. destruct (process_courses_ok _ Hp) as (Hc & _ & Hg & _).
  rewrite Forall_forall in Hc. split; [now apply cut_line, Hc|].
  assert (Hv : In (number_of line)
                  (numbers_of (subject_of line) (splitlines (strip block)))).
  { apply In_numbers_of. eauto. }
  exists (numbers_of (subject_of line) (splitlines (strip block))).
  split; [|exact Hv]. apply get_Some_In. rewrite Hg.
  destruct (numbers_of (subject_of line) (splitlines (strip block)));
    [contradiction | reflexivity].
Qed.

Lemma lines_go_into_entries_witness :
  py "MATH-201" = subject_of (py "MATH-201") ++ dash :: number_of (py "MATH-201") /\
  exists vs,
    In (subject_of (py "MATH-201"), vs)
       [(py "CS", [py "101"; py "102"]); (py "MATH", [py "201"])] /\
    In (number_of (py "MATH-201")) vs.
Proof.
  apply (@lines_go_into_entries (py "CS-101\nMATH-201\nCS-102")).
  - reflexivity.
  - simpl. right. left. reflexivity.
Defined.

Lemma splitlines_nil (s : str) : splitlines s = [] -> s = [].
Proof.
  destruct s as [|c s]; [reflexivity|]. simpl.
  destruct (islinebreak c).
  - destruct s as [|c' s]; [discriminate|].
    destruct ((c =? CR)%N && (c' =? LF)%N); discriminate.
  - destruct (splitlines s); discriminate.
Qed.

Lemma lstrip_nil (s : str) : lstrip s = [] -> is_blank s = true.
Proof.
  induction s as [|c s IH]; simpl; [reflexivity|].
  destruct (isspace c); simpl; [exact IH | discriminate].
Qed.

Lemma strip_nil (s : str) : strip s = [] -> is_blank s = true.
Proof.
  unfold strip, rstrip. intros H.
  apply (f_equal (@rev char)) in H. rewrite rev_involutive in H. simpl in H.
  apply lstrip_nil in H. rewrite is_blank_rev in H.
  now rewrite is_blank_lstrip in H.
Qed.

(** X5.  The empty mapping is returned for the blocks of whitespace and
    for no other block. *)
Theorem empty_mapping_iff_blank (block : str) :
  process_courses block = Ok [] <-> is_blank block = true.
Proof.
  split.
  - intros H. apply process_courses_ok in H as (_ & _ & _ & Ht & _).
    apply strip_nil, splitlines_nil.
    destruct (splitlines (strip block)); [reflexivity | discriminate Ht].
  - intros H. unfold process_courses. now rewrite strip_blank.
Qed.

(** ** Line endings *)

Lemma splitlines_break (c : char) (u : str) :
  islinebreak c = true -> c <> CR -> splitlines (c :: u) = [] :: splitlines u.
Proof.
  intros Hl Hc. simpl. rewrite Hl. destruct u as [|c' u]; [reflexivity|].
  apply N.eqb_neq in Hc. now rewrite Hc.
Qed.

Lemma splitlines_to_crlf (s : str) :
  count CR s = 0 -> splitlines (to_crlf s) = splitlines s.
Proof.
  induction s as [|c s IH]; [reflexivity|]. simpl count.
  destruct (c =? CR)%N eqn:Ec; [discriminate|]. intros H. specialize (IH H).
  apply N.eqb_neq in Ec. unfold to_crlf in *. cbn [flat_map].
  destruct (c =? LF)%N eqn:El.
  - apply N.eqb_eq in El. subst c. cbn [app]. rewrite splitlines_LF, <- IH.
    reflexivity.
  - cbn [app]. destruct (islinebreak c) eqn:Hl.
    + now rewrite !splitlines_break, IH.
    + simpl. now rewrite Hl, IH.
Qed.

Lemma lstrip_to_crlf (s : str) : lstrip (to_crlf s) = to_crlf (lstrip s).
Proof.
  induction s as [|c s IH]; [reflexivity|]. unfold to_crlf in *. cbn [flat_map].
  destruct (c =? LF)%N eqn:El.
  - apply N.eqb_eq in El. subst c. exact IH.
  - cbn [app lstrip]. destruct (isspace c); [exact IH|].
    cbn [flat_map]. now rewrite El.
Qed.

Lemma rstrip_to_crlf (s : str) : rstrip (to_crlf s) = to_crlf (rstrip s).
Proof.
  induction s as [|c s IH] using rev_ind; [reflexivity|].
  unfold to_crlf in *. rewrite flat_map_app. cbn [flat_map]. rewrite app_nil_r.
  destruct (c =? LF)%N eqn:El.
  - apply N.eqb_eq in El. subst c.
    rewrite rstrip_app_blank by reflexivity.
    rewrite rstrip_snoc_space by reflexivity. exact IH.
  - destruct (isspace c) eqn:Hs.
    + now rewrite !rstrip_snoc_space.
    + rewrite !rstrip_snoc_other by exact Hs.
      rewrite flat_map_app. cbn [flat_map]. now rewrite El, app_nil_r.
Qed.

Lemma count_lstrip (c : char) (s : str) : count c s = 0 -> count c (lstrip s) = 0.
Proof.
  induction s as [|x s IH]; simpl; [reflexivity|].
  destruct (isspace x); simpl; intros H; [apply IH|]; lia.
Qed.

Lemma count_rev (c : char) (s : str) : count c (rev s) = count c s.
Proof.
  induction s as [|x s IH]; simpl; [reflexivity|].
  rewrite count_app, IH. simpl. lia.
Qed.

Lemma count_strip (c : char) (s : str) : count c s = 0 -> count c (strip s) = 0.
Proof.
  intros H. unfold strip, rstrip. rewrite count_rev.
  apply count_lstrip. rewrite count_rev. now apply count_lstrip.
Qed.

(** X6.  Line endings do not matter: a block without carriage returns
    gives the same result, mapping or exception, when every ["\n"] in it
    is written ["\r\n"]. *)
Theorem windows_line_endings (block : str) :
  count CR block = 0 ->
  process_courses (to_crlf block) = process_courses block.
Proof.
  intros H. unfold process_courses, strip.
  rewrite lstrip_to_crlf, rstrip_to_crlf. fold (strip block).
  now rewrite splitlines_to_crlf by now apply count_strip.
Qed.

Lemma windows_line_endings_witness :
  process_courses (py "CS-101\r\nCS-102\r\nMATH-201\r\n")
  = Ok [(py "CS", [py "101"; py "102"]); (py "MATH", [py "201"])].
Proof.
  change (py "CS-101\r\nCS-102\r\nMATH-201\r\n")
    with (to_crlf (py "CS-101\nCS-102\nMATH-201\n")).
  rewrite windows_line_endings; reflexivity.
Defined.

(** * Further properties of the driver *)





Lemma filter_twice {A} (f : A -> bool) (l : list A) :
  filter f (filter f l) = filter f l.
Proof.
  rewrite filter_filter. apply filter_ext. intros x. apply andb_diag.
Qed.

(** X8.  The output file is overwritten, not appended to: when a run on a
    block has ended normally and a second run on the same block ends
    normally too, the second run leaves the files exactly as the first run
    left them and prints the confirmation line once more. *)
Theorem main_rerun_overwrites (block : str) (w w1 w2 : world) :
  main block w = (Ok tt, w1) ->
  main block w1 = (Ok tt, w2) ->
  files w2 = files w1 /\
  stdout w2 = stdout w1 ++ [py "Data successfully written to subject_data.json."].
Proof.
  intros H1 H2.
  apply main_ok in H1 as (m & Hp & Hf1 & _).
  apply main_ok in H2 as (m' & Hp' & Hf2 & Hs2 & _).
  split; [|exact Hs2].
  assert (m' = m) by congruence. subst m'.
  rewrite Hf2, Hf1. cbn [filter fst]. rewrite str_eqb_refl. cbn [negb].
  now rewrite filter_twice.
Qed.

Lemma main_rerun_overwrites_witness :
  files (snd (main (py "CS-101") (snd (main (py "CS-101") (World [] [])))))
  = files (snd (main (py "CS-101") (World [] []))) /\
  stdout (snd (main (py "CS-101") (snd (main (py "CS-101") (World [] [])))))
  = stdout (snd (main (py "CS-101") (World [] [])))
    ++ [py "Data successfully written to subject_data.json."].
Proof.
  apply (@main_rerun_overwrites (py "CS-101") (World [] [])); reflexivity.
Defined.

(** ** The text of the dump *)

Module JsonText.
Import Json.

Local Open Scope N_scope.

Lemma hexdigit_ascii (d : N) : d < 16 -> ascii_text (hexdigit d) = true.
Proof.
  intros H. unfold hexdigit, ascii_text, LF.
  destruct (d <? 10) eqn:E; [apply N.ltb_lt in E | apply N.ltb_ge in E];
    rewrite orb_true_iff, andb_true_iff, !N.leb_le; right; lia.
Qed.

Lemma hex4_ascii (n : N) : forallb ascii_text (hex4 n) = true.
Proof.
  unfold hex4. cbn [forallb].
  rewrite !hexdigit_ascii by (apply N.mod_upper_bound; discriminate).
  reflexivity.
Qed.

Lemma escape_ascii_ascii (c : char) : forallb ascii_text (escape_ascii c) = true.
Proof.
  unfold escape_ascii.
  repeat match goal with
         | |- forallb _ (if ?b then _ else _) = true => destruct b eqn:?
         end; try reflexivity.
  - cbn [forallb]. unfold ascii_text.
    match goal with H : (_ && _)%bool = true |- _ => rewrite H end.
    now rewrite orb_true_r.
  - change (backslash :: py "u" ++ hex4 c) with ([backslash; 0x75] ++ hex4 c).
    rewrite forallb_app, hex4_ascii. reflexivity.
  - cbv zeta.
    match goal with
    | |- forallb _ (backslash :: py "u" ++ hex4 ?a ++ backslash :: py "u" ++ hex4 ?b) = true =>
      change (backslash :: py "u" ++ hex4 a ++ backslash :: py "u" ++ hex4 b)
        with ([backslash; 0x75] ++ hex4 a ++ [backslash; 0x75] ++ hex4 b)
    end.
    rewrite !forallb_app, !hex4_ascii. reflexivity.
Qed.

Lemma encode_ascii (s : str) : forallb ascii_text (encode_basestring_ascii s) = true.
Proof.
  unfold encode_basestring_ascii. cbn [forallb].
  rewrite forallb_app. cbn [forallb].
  change (ascii_text quote) with true. cbn [andb]. rewrite andb_true_r.
  induction s as [|c s IH]; [reflexivity|]. cbn [flat_map].
  now rewrite forallb_app, escape_ascii_ascii, IH.
Qed.

Lemma newline_indent_ascii (indent level : nat) :
  forallb ascii_text (newline_indent indent level) = true.
Proof.
  unfold newline_indent. cbn [forallb]. change (ascii_text LF) with true. cbn [andb].
  induction (indent * level)%nat as [|n IH]; [reflexivity|]. exact IH.
Qed.

Lemma separated_ascii (sep : str) (first : bool) (items : list str) :
  forallb ascii_text sep = true ->
  Forall (fun x => forallb ascii_text x = true) items ->
  forallb ascii_text (separated sep first items) = true.
Proof.
  intros Hsep H. revert first. induction H as [|x items Hx _ IH]; intros first;
    [reflexivity|].
  cbn [separated]. rewrite !forallb_app, Hx, IH.
  destruct first; [reflexivity | now rewrite Hsep].
Qed.

Lemma iterencode_list_ascii (indent level : nat) (vs : list str) :
  forallb ascii_text (iterencode_list indent vs level) = true.
Proof.
  destruct vs as [|v vs]; [reflexivity|]. unfold iterencode_list.
  rewrite !forallb_app, !newline_indent_ascii, separated_ascii; [reflexivity| |].
  - rewrite forallb_app, newline_indent_ascii. reflexivity.
  - apply Forall_forall. intros x Hx. apply in_map_iff in Hx as (y & <- & _).
    apply encode_ascii.
Qed.

Lemma dumps_ascii (indent : nat) (m : dict) :
  forallb ascii_text (dumps indent m) = true.
Proof.
  destruct m as [|kv m]; [reflexivity|]. unfold dumps, iterencode_dict.
  rewrite !forallb_app, !newline_indent_ascii, separated_ascii; [reflexivity| |].
  - rewrite forallb_app, newline_indent_ascii. reflexivity.
  - apply Forall_forall. intros x Hx. apply in_map_iff in Hx as (y & <- & _).
    unfold iterencode_item.
    now rewrite !forallb_app, encode_ascii, iterencode_list_ascii.
Qed.

End JsonText.

(** X9.  Whatever characters the block holds, the file that a successful
    run leaves is plain ASCII: newlines and the characters from [' '] to
    ['~'] only, everything else being written as an escape. *)
Theorem written_file_is_ascii (block : str) (w w' : world) :
  main block w = (Ok tt, w') ->
  exists text,
    read_file output_path (files w') = Some text /\
    forallb ascii_text text = true.
Proof.
  intros H. pose proof H as H'. apply main_ok in H' as (m & Hp & _).
  exists (Json.dumps 2 m).
  split; [exact (@main_ok_file block m w w' H Hp) | apply JsonText.dumps_ascii].
Qed.

Lemma written_file_is_ascii_witness :
  exists text,
    read_file output_path
      (files (snd (main [0xE9; 0x2D; 0x1F600; 0x09]%N (World [] []))))
    = Some text /\
    forallb ascii_text text = true.
Proof.
  apply (@written_file_is_ascii [0xE9; 0x2D; 0x1F600; 0x09]%N (World [] [])).
  reflexivity.
Defined.

(** * Blocks that grow *)

Lemma splitlines_cons2 (x t : char) (u : str) :
  splitlines (x :: t :: u) =
  if islinebreak x then
    if ((x =? CR)%N && (t =? LF)%N)%bool then [] :: splitlines u
    else [] :: splitlines (t :: u)
  else glue x (splitlines (t :: u)).
Proof. reflexivity. Qed.

(** A newline after a character that ends no line closes the line, and
    what follows is split on its own. *)
Lemma splitlines_app_LF (init : str) (c : char) (y : str) :
  islinebreak c = false ->
  splitlines ((init ++ [c]) ++ LF :: y) = splitlines (init ++ [c]) ++ splitlines y.
Proof.
  intros Hc. induction init as [|x init IH].
  - cbn [app]. simpl. rewrite Hc. destruct y; reflexivity.
  - cbn [app]. destruct (init ++ [c]) as [|t rest] eqn:E.
    { destruct init; discriminate. }
    cbn [app] in *. rewrite !splitlines_cons2.
    destruct (islinebreak x).
    + destruct ((x =? CR)%N && (t =? LF)%N)%bool eqn:El.
      * apply andb_true_iff in El as [_ El]. apply N.eqb_eq in El. subst t.
        rewrite !splitlines_LF in IH. exact IH.
      * now rewrite IH.
    + rewrite IH. destruct (splitlines (t :: rest)) eqn:Es; [|reflexivity].
      apply splitlines_nil in Es. discriminate.
Qed.

Lemma rstrip_app_nonblank (x y : str) :
  is_blank y = false -> rstrip (x ++ y) = x ++ rstrip y.
Proof.
  intros H. unfold rstrip. rewrite rev_app_distr.
  rewrite lstrip_app_nonblank by now rewrite is_blank_rev.
  now rewrite rev_app_distr, rev_involutive.
Qed.

Lemma length_lstrip (s : str) : length (lstrip s) <= length s.
Proof.
  induction s as [|c s IH]; simpl; [lia|]. destruct (isspace c); simpl; lia.
Qed.

Lemma length_rstrip (s : str) : length (rstrip s) <= length s.
Proof.
  unfold rstrip. rewrite length_rev.
  etransitivity; [apply length_lstrip|]. now rewrite length_rev.
Qed.

(** A text that [rstrip] leaves alone is empty or ends with a character
    that is no whitespace. *)
Lemma rstrip_fixed (a : str) :
  rstrip a = a ->
  a = [] \/ exists init c, a = init ++ [c] /\ isspace c = false.
Proof.
  destruct a as [|c a] using rev_ind; [now left|]. clear IHa.
  intros H. right. exists a, c. split; [reflexivity|].
  destruct (isspace c) eqn:Hs; [|reflexivity].
  rewrite rstrip_snoc_space in H by exact Hs.
  pose proof (length_rstrip a) as L. rewrite H, length_app in L. simpl in L. lia.
Qed.

Lemma lstrip_snoc_other (init : str) (c : char) :
  isspace c = false -> exists init', lstrip (init ++ [c]) = init' ++ [c].
Proof.
  intros Hc. induction init as [|x init IH]; simpl.
  - rewrite Hc. now exists [].
  - destruct (isspace x); [exact IH|]. now exists (x :: init).
Qed.

(** The lines of a block that does not end in whitespace are still the
    first lines when a newline and more text come after it. *)
Lemma appended_lines (a b : str) :
  rstrip a = a ->
  exists more,
    splitlines (strip (a ++ LF :: b)) = splitlines (strip a) ++ more.
Proof.
  intros H. destruct (rstrip_fixed H) as [->|(init & c & -> & Hc)].
  { eexists. reflexivity. }
  destruct (@lstrip_snoc_other init c Hc) as [init' E].
  assert (Hnb : is_blank (init ++ [c]) = false).
  { rewrite is_blank_app. simpl. rewrite Hc. apply andb_false_r. }
  assert (Ha : strip (init ++ [c]) = init' ++ [c]).
  { unfold strip. rewrite E. now apply rstrip_snoc_other. }
  unfold strip at 1. rewrite lstrip_app_nonblank by exact Hnb.
  rewrite E, Ha. destruct (is_blank b) eqn:Hb.
  - exists []. rewrite rstrip_app_blank by (simpl; exact Hb).
    now rewrite rstrip_snoc_other, app_nil_r.
  - exists (splitlines (rstrip b)).
    rewrite rstrip_app_nonblank by (simpl; exact Hb).
    change (LF :: b) with ([LF] ++ b). rewrite rstrip_app_nonblank by exact Hb.
    apply splitlines_app_LF.
    destruct (islinebreak c) eqn:Hl; [|reflexivity].
    apply islinebreak_isspace in Hl. congruence.
Qed.

Lemma for_lines_app (l1 l2 : list str) (d : dict) :
  for_lines (l1 ++ l2) d = (d' <- for_lines l1 d ;; for_lines l2 d').
Proof.
  revert d. induction l1 as [|line l1 IH]; intros d; simpl; [reflexivity|].
  destruct (loop_body d line); simpl; [apply IH | reflexivity].
Qed.

(** X10.  Grouping is incremental: when a block that does not end in
    whitespace is followed by a newline and more text, and both the block
    and the longer text are grouped, the mapping of the block is the
    beginning of the mapping of the longer text: its keys come first in
    the same order, and each of its lists is the beginning of the list
    under the same key. *)
Theorem appended_text_extends_mapping (a b : str) (m1 m : dict) :
  rstrip a = a ->
  process_courses a = Ok m1 ->
  process_courses (a ++ LF :: b) = Ok m ->
  grows_into m1 m.
Proof.
  intros Ha H1 H. destruct (@appended_lines a b Ha) as [more E].
  unfold process_courses in *. rewrite E, for_lines_app, H1 in H. simpl in H.
  destruct (for_lines_ok _ _ H) as (_ & Hk & Hg & _). split.
  - eexists. exact Hk.
  - intros k vs Hget. rewrite Hg, Hget. simpl. eauto.
Qed.

Lemma appended_text_extends_mapping_witness :
  grows_into [(py "CS", [py "101"]); (py "MATH", [py "201"])]
             [(py "CS", [py "101"; py "102"]); (py "MATH", [py "201"]); (py "ART", [py "7"])].
Proof.
  apply (@appended_text_extends_mapping (py "CS-101\nMATH-201") (py "ART-7\nCS-102\n")).
  - reflexivity.
  - reflexivity.
  - reflexivity.
Defined.



